(** * NASA-TLX survey application: a shallow embedding of [main.py]

    The program is a PySide wizard: six rating pages, each holding a
    [TLXSlider], an optional pairwise weighting page made of fifteen
    exclusive button groups, and a Finish handler that computes the score
    and appends it to a JSON log and a CSV log.

    Modelling conventions.
    - Python [int] is [Z]; a Python [float] is modelled by the rational it
      denotes in exact arithmetic ([Q]), so [a / b] is the exact quotient
      and [round] is round-half-to-even on that quotient.
    - A Python [dict] with string keys is a [gmap string _]: Python
      compares dicts extensionally, as [gmap] does.
    - A raised exception is the [Raise] branch of the [result] monad.
    - The Qt objects the program touches (radio buttons, exclusive button
      groups, wizard pages) are records holding the attributes the program
      reads and writes.
    - The two log files are modelled one level above their text: the JSON
      file by the Python value its text denotes, the CSV file by its rows
      of cells. *)

From Stdlib Require Import ZArith QArith Qround Qabs Qminmax Lqa Lia.
From stdpp Require Import gmap strings list fin_maps.

Set Warnings "-register-all".
Local Open Scope Z_scope.

(** ** Python primitives *)

Module Py.

Inductive exn :=
  | ZeroDivisionError
  | KeyError (key : string)
  | AttributeError (attr : string)
  | JSONDecodeError
  | ValueError.

Inductive result (A : Type) :=
  | Ok (a : A)
  | Raise (e : exn).
Arguments Ok {A} a.
Arguments Raise {A} e.

(** Sequencing stops at the first exception; the instances give the
    [x ← m; k] notation. *)
#[export] Instance result_bind : MBind result := λ A B k m,
  match m with
  | Ok a => k a
  | Raise e => Raise e
  end.
#[export] Instance result_ret : MRet result := @Ok.

(** [o] or else raise [e]: attribute and item access. *)
Definition or_raise {A} (o : option A) (e : exn) : result A :=
  match o with
  | Some a => Ok a
  | None => Raise e
  end.

(** [d[k]] *)
Definition getitem {V} (d : gmap string V) (k : string) : result V :=
  or_raise (d !! k) (KeyError k).

(** [d.get(k, dflt)] *)
Definition get {V} (d : gmap string V) (k : string) (dflt : V) : V :=
  default dflt (d !! k).

(** [sum(l)]: a left fold starting from the integer 0. *)
Definition sum (l : list Z) : Z := foldl Z.add 0 l.

(** [d.values()] *)
Definition values {V} (d : gmap string V) : list V := (map_to_list d).*2.

(** [l.index(x)]: position of the first occurrence, [ValueError] if none. *)
Fixpoint index (l : list string) (x : string) : result nat :=
  match l with
  | [] => Raise ValueError
  | y :: l' =>
      if String.eqb y x then Ok 0%nat
      else i ← index l' x; Ok (S i)
  end.

(** [a / b] on numbers: the exact quotient stands for the float. *)
Definition truediv (a b : Q) : result Q :=
  if Qeq_bool b 0 then Raise ZeroDivisionError else Ok (a / b)%Q.

(** [round(q)] with one argument: the nearest integer, a tie going to the
    even neighbour. *)
Definition round (q : Q) : Z :=
  let fl := Qfloor q in
  match (q - inject_Z fl ?= 1 # 2)%Q with
  | Lt => fl
  | Gt => fl + 1
  | Eq => if Z.even fl then fl else fl + 1
  end.

(** [{k: f(k) for k in keys}]: keys are visited in order, a later
    duplicate overwrites, the first exception aborts. *)
Definition dict_comp {V} (f : string → result V) (keys : list string)
  : result (gmap string V) :=
  foldl (λ acc k, d ← acc; v ← f k; Ok (<[k := v]> d)) (Ok ∅) keys.

End Py.

Import Py.

(** ** Constants *)

Definition FACTORS : list string :=
  [ "Mental Demand"; "Physical Demand"; "Temporal Demand";
    "Performance"; "Effort"; "Frustration" ].

Definition DEFINITIONS : gmap string string :=
  list_to_map
    [ ("Mental Demand", "How much mental and perceptual activity was required?");
      ("Physical Demand", "How much physical activity was required?");
      ("Temporal Demand", "How much time pressure did you feel?");
      ("Performance", "How successful were you in accomplishing the goals?");
      ("Effort", "How hard did you have to work?");
      ("Frustration", "How insecure, discouraged, or stressed did you feel?") ].

(** ** class TLXSlider *)

Record TLXSlider := mkTLXSlider {
  min_val : Z;
  max_val : Z;
  step : Z;
  value : Z
}.

(** [TLXSlider.__init__]: the handle starts at 50 whatever the range. *)
Definition TLXSlider_init (min_val max_val step : Z) : TLXSlider :=
  {| min_val := min_val; max_val := max_val; step := step; value := 50 |}.

(** [TLXSlider()] with the default arguments. *)
Definition TLXSlider_default : TLXSlider := TLXSlider_init 0 100 5.

(** [TLXSlider.update_value(x)]; [widget_width] is what [self.width()]
    returns and [x] the pointer abscissa. *)
Definition update_value (s : TLXSlider) (widget_width : Z) (x : Q)
  : result TLXSlider :=
  let width := widget_width - 20 in
  let relative_x := Qmin (Qmax 0 (x - 10)) (inject_Z width) in
  frac ← truediv relative_x (inject_Z width);
  q ← truediv (inject_Z (min_val s)
               + frac * inject_Z (max_val s - min_val s))%Q
              (inject_Z (step s));
  Ok {| min_val := min_val s; max_val := max_val s; step := step s;
        value := round q * step s |}.

(** [TLXSlider.get_value] *)
Definition get_value (s : TLXSlider) : Z := value s.

(** ** The Qt objects the wizard is built from *)

Module Qt.

Record QRadioButton := mkRadio {
  text : string;
  isChecked : bool
}.

(** A [QButtonGroup] is exclusive unless told otherwise, and the program
    never tells it otherwise. *)
Record QButtonGroup := mkGroup {
  buttons : list QRadioButton
}.

(** [QButtonGroup.checkedButton()]: the checked button, or [None]. *)
Definition checkedButton (g : QButtonGroup) : option QRadioButton :=
  List.find isChecked (buttons g).

(** The user clicks button [j] of an exclusive group: that button ends
    up checked and every other button of the same group unchecked.
    Buttons of other groups are not touched. *)
Definition click (g : QButtonGroup) (j : nat) : QButtonGroup :=
  if decide (j < length (buttons g))%nat
  then {| buttons := imap (λ k b, mkRadio (text b) (Nat.eqb k j)) (buttons g) |}
  else g.

(** What a page's layout shows; the sliders and the button groups
    themselves live in the page and in the application. *)
Inductive widget :=
  | QLabel (caption : string)
  | SliderWidget
  | ChoiceRow (left right : string)
  | HLine.

Inductive QMessageBox :=
  | warning (title message : string).

End Qt.

Import Qt.

Record QWizardPage := mkPage {
  title : string;
  layout : list widget;
  slider : option TLXSlider
}.

(** ** class TLXApp *)

Record TLXApp := mkTLXApp {
  use_weighting : bool;
  ratings : gmap string Z;
  weights : gmap string Z;
  pages : list QWizardPage;
  (** [None] until [create_weighting_page] has run *)
  button_groups : option (list QButtonGroup)
}.

(** Assignments to the attributes of [self]. *)
Definition set_ratings (st : TLXApp) (r : gmap string Z) : TLXApp :=
  mkTLXApp (use_weighting st) r (weights st) (pages st) (button_groups st).
Definition set_weights (st : TLXApp) (w : gmap string Z) : TLXApp :=
  mkTLXApp (use_weighting st) (ratings st) w (pages st) (button_groups st).
Definition set_pages (st : TLXApp) (ps : list QWizardPage) : TLXApp :=
  mkTLXApp (use_weighting st) (ratings st) (weights st) ps (button_groups st).
Definition set_button_groups (st : TLXApp) (gs : list QButtonGroup) : TLXApp :=
  mkTLXApp (use_weighting st) (ratings st) (weights st) (pages st) (Some gs).

(** [QWizard.addPage]: ids are handed out in order from 0, so the page
    with id [i] is [pages st !! i]. *)
Definition addPage (st : TLXApp) (p : QWizardPage) : TLXApp :=
  set_pages st (pages st ++ [p]).

(** [QWizard.page(id)] *)
Definition page (st : TLXApp) (id : nat) : option QWizardPage :=
  pages st !! id.

(** [TLXApp.create_rating_page]: the definition of the factor, a slider
    with the default arguments, and the two end labels. *)
Definition create_rating_page (factor : string) : result QWizardPage :=
  definition ← getitem DEFINITIONS factor;
  let low := if String.eqb factor "Performance" then "Good" else "Low" in
  let high := if String.eqb factor "Performance" then "Poor" else "High" in
  Ok {| title := "Rate: " +:+ factor;
        layout := [QLabel definition; SliderWidget; QLabel low; QLabel high];
        slider := Some TLXSlider_default |}.

(** The rows of the weighting page: the two nested loops over
    [enumerate(FACTORS)] and [FACTORS[i+1:]], each iteration appending one
    fresh group of two unchecked radio buttons. *)
Definition weighting_rows (factors : list string) : list QButtonGroup :=
  foldl (λ acc '(i, f1),
           foldl (λ acc f2, acc ++ [mkGroup [mkRadio f1 false; mkRadio f2 false]])
                 acc (drop (S i) factors))
        [] (imap pair factors).

(** [TLXApp.create_weighting_page]: the groups go to
    [self.button_groups]; the layout gets, for each group, the row of its
    two buttons and a sunken horizontal line. *)
Definition create_weighting_page (st : TLXApp) : TLXApp * QWizardPage :=
  let groups := weighting_rows FACTORS in
  let rows :=
    mjoin ((λ g, [ChoiceRow (default "" (text <$> buttons g !! 0%nat))
                            (default "" (text <$> buttons g !! 1%nat));
                  HLine]) <$> groups) in
  (set_button_groups st groups,
   {| title := "Pairwise Weighting Comparison"; layout := rows; slider := None |}).

(** [TLXApp.__init__] *)
Definition TLXApp_init (use_weighting : bool) : result TLXApp :=
  let st := {| use_weighting := use_weighting;
               ratings := ∅;
               weights := ∅;
               pages := [];
               button_groups := None |} in
  w ← dict_comp (λ _, Ok 0) FACTORS;
  let st := set_weights st w in
  st ← foldl (λ acc factor, st ← acc; p ← create_rating_page factor; Ok (addPage st p))
             (Ok st) FACTORS;
  if use_weighting
  then let '(st, p) := create_weighting_page st in Ok (addPage st p)
  else Ok st.

(** The condition of the generator in [update_weights]:
    [btn_grp.checkedButton() and btn_grp.checkedButton().text() == factor]. *)
Definition selects (factor : string) (g : QButtonGroup) : bool :=
  match checkedButton g with
  | Some b => String.eqb (text b) factor
  | None => false
  end.

(** [TLXApp.update_weights]: the new state and the dialogs shown. *)
Definition update_weights (st : TLXApp) : result (TLXApp * list QMessageBox) :=
  groups ← or_raise (button_groups st) (AttributeError "button_groups");
  w ← dict_comp (λ factor, Ok (Py.sum ((λ _, 1) <$> List.filter (selects factor) groups)))
                FACTORS;
  let st := set_weights st w in
  if 15 <? Py.sum (values (weights st))
  then Ok (st, [warning "Error" "Total selections exceed 15. Adjust your choices."])
  else Ok (st, []).

(** ** Events *)

(** The user clicks button [j] of row [i] of the weighting page: Qt
    updates the group, then the [buttonClicked] signal runs
    [update_weights]. *)
Definition buttonClicked (st : TLXApp) (i j : nat)
  : result (TLXApp * list QMessageBox) :=
  match button_groups st with
  | Some groups =>
      match groups !! i with
      | Some g => update_weights (set_button_groups st (<[i := click g j]> groups))
      | None => Ok (st, [])
      end
  | None => Ok (st, [])
  end.

(** [mousePressEvent] and [mouseMoveEvent] on the slider of page [id]. *)
Definition mouseEvent (st : TLXApp) (id : nat) (widget_width : Z) (x : Q)
  : result TLXApp :=
  match pages st !! id with
  | Some p =>
      match slider p with
      | Some s =>
          s' ← update_value s widget_width x;
          Ok (set_pages st (<[id := mkPage (title p) (layout p) (Some s')]> (pages st)))
      | None => Ok st
      end
  | None => Ok st
  end.

(** ** Finish: [save_results] and [save_to_files] *)

Record result_data := mkResult {
  timestamp : string;
  rd_ratings : gmap string Z;
  rd_weights : gmap string Z;
  adjusted_ratings : gmap string Z;
  weighted_rating : Q
}.

(** Lines 143 to 153 of [save_results]: everything up to the call of
    [save_to_files]. [now] is [datetime.now().isoformat()]. *)
Definition build_result (st : TLXApp) (now : string)
  : result (TLXApp * result_data) :=
  r ← dict_comp (λ factor,
         i ← index FACTORS factor;
         p ← or_raise (page st i) (AttributeError "slider");
         s ← or_raise (slider p) (AttributeError "slider");
         Ok (get_value s)) FACTORS;
  let st := set_ratings st r in
  adjusted ← (if use_weighting st
              then dict_comp (λ factor,
                     a ← getitem (ratings st) factor;
                     b ← getitem (weights st) factor;
                     Ok (a * b)) FACTORS
              else Ok ∅);
  weighted ← (if use_weighting st
              then truediv (inject_Z (Py.sum (values adjusted))) (inject_Z 15)
              else truediv (inject_Z (Py.sum (values (ratings st))))
                           (inject_Z (Z.of_nat (length FACTORS))));
  Ok (st,
      {| timestamp := now;
         rd_ratings := ratings st;
         rd_weights := if use_weighting st then weights st else ∅;
         adjusted_ratings := if use_weighting st then adjusted else ∅;
         weighted_rating := weighted |}).

(** *** The data directory *)

(** A Python value as [json.load] returns it and [json.dump] accepts it. *)
Inductive pyval :=
  | PyStr (s : string)
  | PyInt (z : Z)
  | PyFloat (q : Q)
  | PyList (l : list pyval)
  | PyDict (d : gmap string pyval).

(** The text of [nasa_tlx_results.json]: either the serialisation of a
    value, which [json.load] gives back, or text that is not JSON (an
    empty file for instance). *)
Inductive json_text :=
  | JsonOf (v : pyval)
  | NotJson.

(** [json.load] and [json.dump], taken as inverse of each other on the
    values the program writes. *)
Definition json_load (t : json_text) : result pyval :=
  match t with
  | JsonOf v => Ok v
  | NotJson => Raise JSONDecodeError
  end.

Definition json_dump (v : pyval) : json_text := JsonOf v.

(** [data.append(x)]: only a list has the method. *)
Definition append (data : pyval) (x : pyval) : result pyval :=
  match data with
  | PyList l => Ok (PyList (l ++ [x]))
  | _ => Raise (AttributeError "append")
  end.

(** A CSV cell before the writer turns it into text. *)
Inductive cell :=
  | CStr (s : string)
  | CInt (z : Z)
  | CFloat (q : Q).

(** The two files of [DATA_DIR]; [None] when the file does not exist. *)
Record data_dir := mkDataDir {
  json_file : option json_text;
  csv_file : option (list (list cell))
}.

(** The dict [result_data] as a Python value. *)
Definition py_of_result (rd : result_data) : pyval :=
  PyDict (list_to_map
    [ ("timestamp", PyStr (timestamp rd));
      ("ratings", PyDict (PyInt <$> rd_ratings rd));
      ("weights", PyDict (PyInt <$> rd_weights rd));
      ("adjusted_ratings", PyDict (PyInt <$> adjusted_ratings rd));
      ("weighted_rating", PyFloat (weighted_rating rd)) ]).

(** [csv.DictWriter.writerow] with the default [restval=''] and
    [extrasaction='raise']. *)
Definition writerow (fieldnames : list string) (rowdict : gmap string cell)
  : result (list cell) :=
  if forallb (λ k, bool_decide (k ∈ fieldnames)) (map_to_list rowdict).*1
  then Ok ((λ k, get rowdict k (CStr "")) <$> fieldnames)
  else Raise ValueError.

(** [csv.DictWriter.writeheader] *)
Definition writeheader (fieldnames : list string) : list cell :=
  CStr <$> fieldnames.

(** The list [fieldnames] of line 182. *)
Definition fieldnames (use_weighting : bool) : list string :=
  ["timestamp"] ++ FACTORS
  ++ (if use_weighting then (λ factor, "adjusted_" +:+ factor) <$> FACTORS else [])
  ++ ["weighted_rating"].

(** The dict [csv_data] of lines 171 to 177. *)
Definition csv_data (use_weighting : bool) (rd : result_data) : gmap string cell :=
  let d := {[ "timestamp" := CStr (timestamp rd) ]} in
  let d := foldl (λ d factor,
             <[factor := default (CStr "") (CInt <$> rd_ratings rd !! factor)]> d)
             d FACTORS in
  let d := if use_weighting
           then foldl (λ d factor,
                  <["adjusted_" +:+ factor :=
                      default (CStr "") (CInt <$> adjusted_ratings rd !! factor)]> d)
                  d FACTORS
           else d in
  <["weighted_rating" := CFloat (weighted_rating rd)]> d.

(** [TLXApp.save_to_files] *)
Definition save_to_files (st : TLXApp) (rd : result_data) (fs : data_dir)
  : result data_dir :=
  (* Save JSON *)
  data ← match json_file fs with
         | Some t => json_load t
         | None => Ok (PyList [])
         end;
  data ← append data (py_of_result rd);
  let fs := mkDataDir (Some (json_dump data)) (csv_file fs) in
  (* Save CSV *)
  let file_exists := bool_decide (is_Some (csv_file fs)) in
  let f := default [] (csv_file fs) in
  let f := if negb file_exists
           then f ++ [writeheader (fieldnames (use_weighting st))]
           else f in
  row ← writerow (fieldnames (use_weighting st)) (csv_data (use_weighting st) rd);
  Ok (mkDataDir (json_file fs) (Some (f ++ [row]))).

(** [TLXApp.save_results]: the slot of the Finish button. *)
Definition save_results (st : TLXApp) (now : string) (fs : data_dir)
  : result (TLXApp * data_dir) :=
  '(st, rd) ← build_result st now;
  fs ← save_to_files st rd fs;
  Ok (st, fs).


(** ** Sessions *)

(** What the user can do before Finish. *)
Inductive event :=
  | Click (row button : nat)
  | Mouse (id : nat) (widget_width : Z) (x : Q).

Definition handle (st : TLXApp) (ev : event) : result (TLXApp * list QMessageBox) :=
  match ev with
  | Click i j => buttonClicked st i j
  | Mouse id w x => st ← mouseEvent st id w x; Ok (st, [])
  end.

(** A session: the events in order, the dialogs accumulated. A session in
    which a handler raises has no final state here. *)
Definition run (st : TLXApp) (evs : list event) : result (TLXApp * list QMessageBox) :=
  foldl (λ acc ev,
           '(st, shown) ← acc;
           '(st, more) ← handle st ev;
           Ok (st, shown ++ more))
        (Ok (st, [])) evs.

(** Several Finish clicks in a row, each with its own application state
    and record, on the same data directory. *)
Definition save_all (runs : list (TLXApp * result_data)) (fs : data_dir)
  : result data_dir :=
  foldl (λ acc '(st, rd), fs ← acc; save_to_files st rd fs) (Ok fs) runs.

(** ** Vocabulary of the statements *)

(** The fraction of the usable track that [update_value] derives from the
    pointer abscissa, and the value it stores for a fraction. *)
Definition track_fraction (widget_width : Z) (x : Q) : Q :=
  (Qmin (Qmax 0 (x - 10)) (inject_Z (widget_width - 20))
   / inject_Z (widget_width - 20))%Q.

Definition snapped (s : TLXSlider) (frac : Q) : Z :=
  round ((inject_Z (min_val s) + frac * inject_Z (max_val s - min_val s))
         / inject_Z (step s))%Q * step s.

(** [min + f × (max − min)]: where the handle is aimed before snapping. *)
Definition target (s : TLXSlider) (f : Q) : Q :=
  (inject_Z (min_val s) + f * inject_Z (max_val s - min_val s))%Q.


(** The factor a row currently selects, if any. *)
Definition selected (g : QButtonGroup) : option string :=
  text <$> checkedButton g.

(** The number of rows in which [factor] is the selected one. *)
Definition tally (groups : list QButtonGroup) (factor : string) : nat :=
  length (filter (λ g, selected g = Some factor) groups).

(** The sum of [g] over the keys [l]. *)
Definition sum_over (l : list string) (g : string → Z) : Z :=
  foldr (λ k acc, g k + acc) 0 l.

(** The dict [{k: g(k) for k in keys}]. *)
Definition dict_of {V} (g : string → V) (keys : list string) : gmap string V :=
  foldl (λ d k, <[k := g k]> d) ∅ keys.

(** Every pair [(l[i], l[j])] with [i < j], in lexicographic order of
    the positions. *)
Fixpoint ordered_pairs (l : list string) : list (string * string) :=
  match l with
  | [] => []
  | x :: l' => (pair x <$> l') ++ ordered_pairs l'
  end.

(** The captions of a row, left then right. *)
Definition row_labels (g : QButtonGroup) : list string := text <$> buttons g.

(** At most one button of the group is checked. *)
Definition exclusive (g : QButtonGroup) : Prop :=
  ∀ k1 k2 b1 b2,
    buttons g !! k1 = Some b1 → buttons g !! k2 = Some b2 →
    isChecked b1 = true → isChecked b2 = true → k1 = k2.

(** The JSON file is absent or holds an array. *)
Definition json_log (fs : data_dir) (records : list pyval) : Prop :=
  (json_file fs = None ∧ records = []) ∨
  json_file fs = Some (JsonOf (PyList records)).

(** The header and the data row the column order of the CSV log calls
    for. *)
Definition csv_header (use_weighting : bool) : list cell :=
  if use_weighting
  then CStr <$> [ "timestamp";
                  "Mental Demand"; "Physical Demand"; "Temporal Demand";
                  "Performance"; "Effort"; "Frustration";
                  "adjusted_Mental Demand"; "adjusted_Physical Demand";
                  "adjusted_Temporal Demand"; "adjusted_Performance";
                  "adjusted_Effort"; "adjusted_Frustration";
                  "weighted_rating" ]
  else CStr <$> [ "timestamp";
                  "Mental Demand"; "Physical Demand"; "Temporal Demand";
                  "Performance"; "Effort"; "Frustration";
                  "weighted_rating" ].

Definition csv_row (use_weighting : bool) (rd : result_data) : list cell :=
  let cell_of (d : gmap string Z) (factor : string) :=
    default (CStr "") (CInt <$> d !! factor) in
  [CStr (timestamp rd)]
  ++ (cell_of (rd_ratings rd) <$> FACTORS)
  ++ (if use_weighting then cell_of (adjusted_ratings rd) <$> FACTORS else [])
  ++ [CFloat (weighted_rating rd)].

(** The slider of the page with the id of each factor holds [R factor]. *)
Definition slider_values (st : TLXApp) (R : string → Z) : Prop :=
  ∀ i factor, FACTORS !! i = Some factor →
    ∃ p s, page st i = Some p ∧ slider p = Some s ∧ get_value s = R factor.

(** The weights dict holds [W factor] for each factor. *)
Definition weight_values (st : TLXApp) (W : string → Z) : Prop :=
  ∀ factor, factor ∈ FACTORS → weights st !! factor = Some (W factor).

(** What the slider of a factor's page holds, 0 if there is none. *)
Definition rating_of (st : TLXApp) (factor : string) : Z :=
  match index FACTORS factor with
  | Ok i => default 0 (p ← page st i; s ← slider p; Some (get_value s))
  | Raise _ => 0
  end.

(** An event of the weighting page. *)
Definition is_click (ev : event) : bool :=
  match ev with Click _ _ => true | Mouse _ _ _ => false end.

(** Every factor's page is there and has its slider. *)
Definition has_sliders (st : TLXApp) : Prop :=
  ∀ i factor, FACTORS !! i = Some factor →
    ∃ p s, page st i = Some p ∧ slider p = Some s.

(** The application as [__init__] leaves it; [TLXApp_init_ok] below shows
    that the second branch is never taken. *)
Definition fresh_app (use_weighting : bool) : TLXApp :=
  match TLXApp_init use_weighting with
  | Ok st => st
  | Raise _ => mkTLXApp use_weighting ∅ ∅ [] None
  end.

(** A sample session: the user drags two sliders and clicks no radio
    button. *)
Definition two_drags : list event := [Mouse 0 720 (600 # 1); Mouse 3 720 (97 # 1)].

(** The application after [two_drags]. *)
Definition after_two_drags : TLXApp :=
  match run (fresh_app true) two_drags with
  | Ok (st, _) => st
  | Raise _ => fresh_app true
  end.

(** A row as the inner loop of [create_weighting_page] builds it. *)
Definition fresh_row (p : string * string) : QButtonGroup :=
  mkGroup [mkRadio p.1 false; mkRadio p.2 false].

(** The state of the weighting page in a session: the fifteen rows with
    their captions, each with at most one button checked. *)
Definition rows_intact (st : TLXApp) : Prop :=
  ∃ groups,
    button_groups st = Some groups
    ∧ row_labels <$> groups = row_labels <$> weighting_rows FACTORS
    ∧ Forall exclusive groups.

(** The entries of a Python dict, nothing for another value. *)
Definition items (v : pyval) : gmap string pyval :=
  match v with PyDict d => d | _ => ∅ end.



(** A slider as the program builds it, with its handle on one of the 21
    levels. *)
Definition on_grid (s : TLXSlider) : Prop :=
  min_val s = 0 ∧ max_val s = 100 ∧ step s = 5
  ∧ (5 | value s) ∧ 0 ≤ value s ≤ 100.

(** Every factor's page has such a slider. *)
Definition sliders_on_grid (st : TLXApp) : Prop :=
  ∀ i factor, FACTORS !! i = Some factor →
    ∃ p s, page st i = Some p ∧ slider p = Some s ∧ on_grid s.

(** The stored weights are the tallies of the current selections, or all
    0 when there is no weighting page. *)
Definition weights_tallied (st : TLXApp) : Prop :=
  match button_groups st with
  | Some groups => weights st = dict_of (λ f, Z.of_nat (tally groups f)) FACTORS
  | None => weights st = dict_of (λ _, 0) FACTORS
  end.

(** What holds all along a session started by [TLXApp_init uw]. *)
Definition session_state (uw : bool) (st : TLXApp) : Prop :=
  use_weighting st = uw
  ∧ sliders_on_grid st
  ∧ weights_tallied st
  ∧ (if uw then rows_intact st else button_groups st = None).

(** The number of rows in which a choice has been made. *)
Definition answered (groups : list QButtonGroup) : nat :=
  length (filter (λ g, is_Some (selected g)) groups).

(** A sample session: two drags, three clicks (the second row is answered
    twice). *)
Definition sample_session : list event :=
  [Mouse 0 720 (600 # 1); Click 0 0; Click 1 1; Click 1 0; Mouse 5 400 (3 # 1)].

(** The application at the end of the sample session. *)
Definition after_sample (uw : bool) : TLXApp :=
  match run (fresh_app uw) sample_session with
  | Ok (st, _) => st
  | Raise _ => fresh_app uw
  end.



(** The function of the comprehension of line 143. *)
Definition read_slider (st : TLXApp) (factor : string) : result Z :=
  i ← index FACTORS factor;
  p ← or_raise (page st i) (AttributeError "slider");
  s ← or_raise (slider p) (AttributeError "slider");
  Ok (get_value s).

(** ** [TLXSlider.paintEvent] *)

(** [a // b] on integers: the floor of the quotient, as [/] on [Z]. *)
Definition floordiv (a b : Z) : result Z :=
  if decide (b = 0) then Raise ZeroDivisionError else Ok (a / b).

(** [int(q)]: the integer part, rounding toward 0. *)
Definition int (q : Q) : Z := Z.quot (Qnum q) (Z.pos (Qden q)).

(** [Qt.black] and [Qt.red] *)
Inductive color := black | red.

(** [QPen(color, width)] *)
Record QPen := mkPen {
  pen_color : color;
  pen_width : Z
}.

(** A call of [painter.drawLine(x1, y1, x2, y2)] with the pen in force. *)
Record drawLine := mkLine {
  pen : QPen;
  x1 : Z;
  y1 : Z;
  x2 : Z;
  y2 : Z
}.

(** The tick drawn at the float abscissa [x]. *)
Definition tick (y : Z) (x : Q) : drawLine :=
  mkLine (mkPen black 2) (int x) (y - 7) (int x) (y + 7).

(** [TLXSlider.paintEvent]: the lines drawn, in order, on a widget of the
    given width and height. When a division raises, the lines drawn so
    far are not reported. *)
Definition paintEvent (s : TLXSlider) (width height : Z) : result (list drawLine) :=
  let y := height / 2 in
  (* Draw main line and ticks *)
  let axis := mkLine (mkPen black 2) 10 y (width - 10) y in
  num_steps ← floordiv (max_val s - min_val s) (step s);
  step_width ← truediv (inject_Z (width - 20)) (inject_Z num_steps);
  let ticks :=
    (λ i, tick y (10 + inject_Z i * step_width)%Q) <$> seqZ 0 (num_steps + 1) in
  (* Draw handle *)
  frac ← truediv (inject_Z (value s - min_val s))
                 (inject_Z (max_val s - min_val s));
  let handle_x := (10 + frac * inject_Z (width - 20))%Q in
  Ok ([axis] ++ ticks
      ++ [mkLine (mkPen red 4) (int handle_x) (y - 15) (int handle_x) (y + 15)]).

(** The float abscissa of the handle. *)
Definition handle_x (s : TLXSlider) (width : Z) : Q :=
  (10 + inject_Z (value s - min_val s) / inject_Z (max_val s - min_val s)
        * inject_Z (width - 20))%Q.

(** The float abscissa of the i-th tick. *)
Definition tick_x (s : TLXSlider) (width : Z) (i : Z) : Q :=
  (10 + inject_Z i
        * (inject_Z (width - 20)
           / inject_Z ((max_val s - min_val s) / step s)))%Q.



(** * Properties *)

(** ** Rounding *)

#[global] Instance round_proper : Proper (Qeq ==> eq) round.
Proof.
  intros q q' E. unfold round.
  rewrite (Qfloor_comp _ _ E).
  assert (Hc : (q - inject_Z (Qfloor q') ?= 1 # 2)%Q
               = (q' - inject_Z (Qfloor q') ?= 1 # 2)%Q)
    by (now rewrite E).
  now rewrite Hc.
Qed.

Lemma floor_bounds (q : Q) :
  (inject_Z (Qfloor q) <= q ∧ q < inject_Z (Qfloor q) + 1)%Q.
Proof.
  split; [apply Qfloor_le|].
  pose proof (Qlt_floor q) as H. now rewrite inject_Z_plus in H.
Qed.

Lemma round_cases (q : Q) :
  (round q = Qfloor q ∧ (q - inject_Z (Qfloor q) <= 1 # 2)%Q) ∨
  (round q = Qfloor q + 1 ∧ (1 # 2 <= q - inject_Z (Qfloor q))%Q).
Proof.
  unfold round.
  destruct (Qcompare_spec (q - inject_Z (Qfloor q)) (1 # 2)) as [E|L|G].
  - destruct (Z.even (Qfloor q)); [left|right]; split; trivial; rewrite E; lra.
  - left. split; trivial. lra.
  - right. split; trivial. lra.
Qed.


Lemma round_ge (a : Z) (q : Q) : (inject_Z a <= q)%Q → a ≤ round q.
Proof.
  intros H. assert (a ≤ Qfloor q).
  { destruct (floor_bounds q) as [_ Hhi].
    assert (Hlt : (inject_Z a < inject_Z (Qfloor q + 1))%Q)
      by (rewrite inject_Z_plus; change (inject_Z 1) with 1%Q; lra).
    rewrite <- Zlt_Qlt in Hlt. lia. }
  destruct (round_cases q) as [[-> _]|[-> _]]; lia.
Qed.

Lemma round_le (b : Z) (q : Q) : (q <= inject_Z b)%Q → round q ≤ b.
Proof.
  intros H. destruct (floor_bounds q) as [Hlo _].
  assert (Hfl : Qfloor q ≤ b) by (rewrite Zle_Qle; lra).
  destruct (round_cases q) as [[-> _]|[-> Hr]]; [lia|].
  destruct (Z.eq_dec (Qfloor q) b) as [E|NE]; [|lia].
  exfalso. rewrite E in Hr. lra.
Qed.

(** ** The slider *)

Lemma truediv_ok (a b : Q) : ¬ (b == 0)%Q → truediv a b = Ok (a / b)%Q.
Proof.
  intros Hb. unfold truediv.
  destruct (Qeq_bool b 0) eqn:E; [|reflexivity].
  apply Qeq_bool_iff in E. contradiction.
Qed.

Lemma inject_Z_nonzero (z : Z) : z ≠ 0 → ¬ (inject_Z z == 0)%Q.
Proof. intros Hz E. apply Hz. now apply (inject_Z_injective z 0). Qed.

Lemma update_value_ok (s : TLXSlider) (widget_width : Z) (x : Q) :
  widget_width ≠ 20 → step s ≠ 0 →
  update_value s widget_width x =
  Ok (mkTLXSlider (min_val s) (max_val s) (step s)
                  (snapped s (track_fraction widget_width x))).
Proof.
  intros Hw Hs. unfold update_value.
  rewrite truediv_ok by (apply inject_Z_nonzero; lia). cbn.
  rewrite truediv_ok by (now apply inject_Z_nonzero). reflexivity.
Qed.

Lemma track_fraction_range (widget_width : Z) (x : Q) :
  20 < widget_width →
  (0 <= track_fraction widget_width x ∧ track_fraction widget_width x <= 1)%Q.
Proof.
  intros Hw. unfold track_fraction.
  assert (Hpos : (0 < inject_Z (widget_width - 20))%Q).
  { change 0%Q with (inject_Z 0). rewrite <- Zlt_Qlt. lia. }
  set (w := inject_Z (widget_width - 20)) in *.
  split.
  - apply Qle_shift_div_l; [assumption|].
    apply Q.min_glb; [apply Q.le_max_l | lra].
  - apply Qle_shift_div_r; [assumption|].
    rewrite Qmult_1_l. apply Q.le_min_r.
Qed.


Lemma target_range (s : TLXSlider) (frac : Q) :
  min_val s ≤ max_val s → (0 <= frac)%Q → (frac <= 1)%Q →
  (inject_Z (min_val s) <= target s frac ∧ target s frac <= inject_Z (max_val s))%Q.
Proof.
  intros Hmm H0 H1. unfold target.
  unfold Z.sub. rewrite inject_Z_plus, inject_Z_opp.
  assert (Hd : (0 <= inject_Z (max_val s) - inject_Z (min_val s))%Q).
  { rewrite Zle_Qle in Hmm. lra. }
  set (a := inject_Z (min_val s)) in *. set (b := inject_Z (max_val s)) in *.
  assert (Hp : (0 <= frac * (b - a))%Q) by (apply Qmult_le_0_compat; lra).
  assert (Hq : (frac * (b - a) <= 1 * (b - a))%Q)
    by (apply Qmult_le_compat_r; lra).
  split; lra.
Qed.

Lemma snap_in_range (st lo hi : Z) (t : Q) :
  st ≠ 0 → (st | lo) → (st | hi) →
  (inject_Z lo <= t)%Q → (t <= inject_Z hi)%Q →
  lo ≤ round (t / inject_Z st) * st ≤ hi.
Proof.
  intros Hst [a ->] [b ->] Hlo Hhi.
  rewrite inject_Z_mult in Hlo, Hhi.
  assert (Hnz : ¬ (inject_Z st == 0)%Q) by now apply inject_Z_nonzero.
  set (q := (t / inject_Z st)%Q).
  assert (Et : (t == q * inject_Z st)%Q) by (unfold q; field; assumption).
  rewrite Et in Hlo, Hhi.
  destruct (Z.lt_trichotomy st 0) as [Hneg|[Hz|Hpos]]; [|lia|].
  - assert (Hs : (inject_Z st < 0)%Q)
      by (change 0%Q with (inject_Z 0); rewrite <- Zlt_Qlt; lia).
    assert (Hb : (inject_Z b <= q)%Q).
    { apply (Qmult_le_r _ _ (- inject_Z st)); lra. }
    assert (Ha : (q <= inject_Z a)%Q).
    { apply (Qmult_le_r _ _ (- inject_Z st)); lra. }
    apply round_ge in Hb. apply round_le in Ha. nia.
  - assert (Hs : (0 < inject_Z st)%Q)
      by (change 0%Q with (inject_Z 0); rewrite <- Zlt_Qlt; lia).
    assert (Ha : (inject_Z a <= q)%Q) by (apply (Qmult_le_r _ _ (inject_Z st)); lra).
    assert (Hb : (q <= inject_Z b)%Q) by (apply (Qmult_le_r _ _ (inject_Z st)); lra).
    apply round_ge in Ha. apply round_le in Hb. nia.
Qed.



(** A slider whose range is aligned on its step, as the one the program
    builds. *)
Section AlignedSlider.
Variable s : TLXSlider.
Hypothesis step_nonzero : step s ≠ 0.
Hypothesis min_aligned : (step s | min_val s).
Hypothesis max_aligned : (step s | max_val s).
Hypothesis range_ordered : min_val s ≤ max_val s.

Lemma snapped_in_range (f : Q) :
  (0 <= f)%Q → (f <= 1)%Q → min_val s ≤ snapped s f ≤ max_val s.
Proof.
  intros H0 H1. destruct (target_range s f range_ordered H0 H1) as [Hlo Hhi].
  now apply (snap_in_range (step s) (min_val s) (max_val s) (target s f)).
Qed.


End AlignedSlider.







(** ** Dicts built by comprehension *)

Lemma sum_from (a : Z) (l : list Z) : foldl Z.add a l = a + foldr Z.add 0 l.
Proof.
revert a. induction l as [|x l IH]; intros a; cbn; [lia|].
rewrite IH. lia.
Qed.

Lemma sum_foldr (l : list Z) : Py.sum l = foldr Z.add 0 l.
Proof. unfold Py.sum. rewrite sum_from. lia. Qed.

Lemma sum_cons (x : Z) (l : list Z) : Py.sum (x :: l) = x + Py.sum l.
Proof. rewrite !sum_foldr. reflexivity. Qed.

Lemma sum_perm (l l' : list Z) : l ≡ₚ l' → Py.sum l = Py.sum l'.
Proof.
induction 1 as [|x l l' _ IH|x y l|l l' l'' _ IH1 _ IH2];
  rewrite ?sum_cons in *; lia.
Qed.

Lemma sum_ones {A} (l : list A) : Py.sum ((λ _, 1) <$> l) = Z.of_nat (length l).
Proof.
induction l as [|x l IH]; [reflexivity|].
rewrite fmap_cons, sum_cons, IH. cbn [length]. lia.
Qed.

Section DictComp.
Context {V : Type}.
Implicit Types (g : string → V) (keys : list string) (d : gmap string V).

Lemma dict_comp_from (f : string → result V) g keys d :
  (∀ k, k ∈ keys → f k = Ok (g k)) →
  foldl (λ acc k, d ← acc; v ← f k; Ok (<[k := v]> d)) (Ok d) keys
  = Ok (foldl (λ d k, <[k := g k]> d) d keys).
Proof.
  revert d. induction keys as [|k keys IH]; intros d Hf; [reflexivity|].
  cbn [foldl]. cbn [mbind result_bind].
  rewrite (Hf k) by left. cbn.
  apply IH. intros k' Hk'. apply Hf. now right.
Qed.

Lemma dict_comp_pure (f : string → result V) g keys :
  (∀ k, k ∈ keys → f k = Ok (g k)) →
  dict_comp f keys = Ok (dict_of g keys).
Proof. apply dict_comp_from. Qed.

Lemma dict_of_snoc g keys k :
  dict_of g (keys ++ [k]) = <[k := g k]> (dict_of g keys).
Proof. unfold dict_of. now rewrite foldl_app. Qed.

Lemma lookup_dict_of_None g keys k :
  k ∉ keys → dict_of g keys !! k = None.
Proof.
  induction keys as [|k' keys IH] using rev_ind; intros Hk; [reflexivity|].
  rewrite dict_of_snoc. rewrite elem_of_app, list_elem_of_singleton in Hk.
  rewrite lookup_insert_ne by naive_solver. apply IH. naive_solver.
Qed.

Lemma lookup_dict_of g keys k :
  k ∈ keys → dict_of g keys !! k = Some (g k).
Proof.
  induction keys as [|k' keys IH] using rev_ind; intros Hk.
  - inversion Hk.
  - rewrite dict_of_snoc. destruct (decide (k' = k)) as [->|Hne].
    + apply lookup_insert_eq.
    + rewrite lookup_insert_ne by done. apply IH.
      apply elem_of_app in Hk as [Hk|Hk]; [done|].
      apply list_elem_of_singleton in Hk. congruence.
Qed.
End DictComp.

Lemma sum_over_snoc (g : string → Z) (keys : list string) (k : string) :
sum_over (keys ++ [k]) g = sum_over keys g + g k.
Proof.
unfold sum_over. induction keys as [|k' keys IH]; cbn; [lia|].
rewrite IH. lia.
Qed.

Lemma sum_values_dict_of (g : string → Z) (keys : list string) :
NoDup keys → Py.sum (values (dict_of g keys)) = sum_over keys g.
Proof.
induction keys as [|k keys IH] using rev_ind; intros Hnd; [reflexivity|].
apply NoDup_app in Hnd as (Hnd & Hk & _).
rewrite dict_of_snoc, sum_over_snoc. unfold values.
rewrite (sum_perm _ (g k :: (map_to_list (dict_of g keys)).*2)).
- rewrite sum_cons. unfold values in IH. rewrite IH by done. lia.
- rewrite map_to_list_insert; [reflexivity|].
  apply lookup_dict_of_None. intros Hin. apply (Hk k Hin). left.
Qed.

Lemma sum_values_empty : Py.sum (values (∅ : gmap string Z)) = 0.
Proof. unfold values. now rewrite map_to_list_empty. Qed.

Lemma NoDup_FACTORS : NoDup FACTORS.
Proof. apply (bool_decide_unpack _). vm_compute. exact I. Qed.

(** ** Finish *)

Lemma index_lookup (l : list string) (k : string) :
  k ∈ l → ∃ i, index l k = Ok i ∧ l !! i = Some k.
Proof.
  induction l as [|y l IH]; intros Hk; [inversion Hk|].
  cbn [index]. destruct (String.eqb_spec y k) as [->|Hne].
  - exists 0%nat. done.
  - apply elem_of_cons in Hk as [->|Hk]; [done|].
    destruct (IH Hk) as (i & -> & Hi). exists (S i). done.
Qed.

Lemma index_NoDup (l : list string) (i : nat) (k : string) :
  NoDup l → l !! i = Some k → index l k = Ok i.
Proof.
  intros Hnd Hi.
  destruct (index_lookup l k) as (j & Hj & Hlj).
  { apply list_elem_of_lookup. eauto. }
  rewrite Hj. f_equal. apply (NoDup_lookup l j i k); done.
Qed.

(** The comprehension of line 143 reads every slider. *)
Lemma ratings_comprehension (st : TLXApp) (R : string → Z) :
  slider_values st R →
  dict_comp (λ factor,
      i ← index FACTORS factor;
      p ← or_raise (page st i) (AttributeError "slider");
      s ← or_raise (slider p) (AttributeError "slider");
      Ok (get_value s)) FACTORS
  = Ok (dict_of R FACTORS).
Proof.
  intros HR. apply dict_comp_pure. intros k Hk.
  destruct (index_lookup _ _ Hk) as (i & -> & Hi).
  destruct (HR i k Hi) as (p & s & Hp & Hs & <-).
  cbn [mbind result_bind]. rewrite Hp. cbn [or_raise mbind result_bind].
  now rewrite Hs.
Qed.

(** The comprehension of line 144 multiplies rating and weight. *)
Lemma adjusted_comprehension (r w : gmap string Z) (R W : string → Z) :
  (∀ k, k ∈ FACTORS → r !! k = Some (R k)) →
  (∀ k, k ∈ FACTORS → w !! k = Some (W k)) →
  dict_comp (λ factor, a ← getitem r factor; b ← getitem w factor; Ok (a * b)) FACTORS
  = Ok (dict_of (λ k, R k * W k) FACTORS).
Proof.
  intros Hr Hw. apply dict_comp_pure. intros k Hk.
  unfold getitem. rewrite (Hr k Hk), (Hw k Hk). reflexivity.
Qed.

Lemma build_result_weighted (st : TLXApp) (R W : string → Z) (now : string) :
  use_weighting st = true → slider_values st R → weight_values st W →
  build_result st now =
  Ok (set_ratings st (dict_of R FACTORS),
      {| timestamp := now;
         rd_ratings := dict_of R FACTORS;
         rd_weights := weights st;
         adjusted_ratings := dict_of (λ k, R k * W k) FACTORS;
         weighted_rating :=
           (inject_Z (sum_over FACTORS (λ k, R k * W k)%Z) / 15)%Q |}).
Proof.
  intros Huw HR HW. unfold build_result.
  rewrite (ratings_comprehension st R HR). cbn [mbind result_bind].
  cbn [use_weighting set_ratings ratings weights]. rewrite Huw.
  rewrite (adjusted_comprehension _ _ R W);
    [|intros k Hk; now apply lookup_dict_of|exact HW].
  cbn [mbind result_bind].
  rewrite sum_values_dict_of by apply NoDup_FACTORS.
  reflexivity.
Qed.

Lemma build_result_unweighted (st : TLXApp) (R : string → Z) (now : string) :
  use_weighting st = false → slider_values st R →
  build_result st now =
  Ok (set_ratings st (dict_of R FACTORS),
      {| timestamp := now;
         rd_ratings := dict_of R FACTORS;
         rd_weights := ∅;
         adjusted_ratings := ∅;
         weighted_rating := (inject_Z (sum_over FACTORS R) / 6)%Q |}).
Proof.
  intros Huw HR. unfold build_result.
  rewrite (ratings_comprehension st R HR). cbn [mbind result_bind].
  cbn [use_weighting set_ratings ratings weights]. rewrite Huw.
  cbn [mbind result_bind].
  rewrite sum_values_dict_of by apply NoDup_FACTORS.
  reflexivity.
Qed.


(** C2. With weighting disabled and sliders holding [R], the Finish step
    raises nothing and builds a record whose [weighted_rating] is the sum
    of [R f] over the six factors divided by 6 and whose [weights] and
    [adjusted_ratings] are empty dicts. *)
Theorem finish_unweighted_score (st : TLXApp) (R : string → Z) (now : string) :
  use_weighting st = false →
  slider_values st R →
  ∃ st' rd,
    build_result st now = Ok (st', rd)
    ∧ weighted_rating rd
      = (inject_Z (R "Mental Demand" + (R "Physical Demand"
                   + (R "Temporal Demand" + (R "Performance"
                   + (R "Effort" + (R "Frustration" + 0))))))%Z / 6)%Q
    ∧ rd_weights rd = ∅
    ∧ adjusted_ratings rd = ∅
    ∧ (∀ f, f ∈ FACTORS → rd_ratings rd !! f = Some (R f)).
Proof.
  intros Huw HR. eexists _, _.
  split; [now apply (build_result_unweighted st R)|].
  cbn [adjusted_ratings weighted_rating rd_ratings rd_weights].
  repeat split. intros f Hf. now apply lookup_dict_of.
Qed.

(** ** Sessions *)

Lemma TLXApp_init_ok (uw : bool) : TLXApp_init uw = Ok (fresh_app uw).
Proof. destruct uw; vm_compute; reflexivity. Qed.

Ltac each_factor H :=
  repeat (apply elem_of_cons in H as [->|H]); [..|inversion H].

Lemma fresh_app_sliders (uw : bool) : slider_values (fresh_app uw) (λ _, 50).
Proof.
  intros i f Hi.
  destruct i as [|[|[|[|[|[|i]]]]]]; [..|discriminate Hi];
    injection Hi as <-; destruct uw; eexists _, _; done.
Qed.

Lemma fresh_app_weights (uw : bool) : weight_values (fresh_app uw) (λ _, 0).
Proof.
  intros f Hf. each_factor Hf; destruct uw; reflexivity.
Qed.

Lemma slider_values_has_sliders (st : TLXApp) (R : string → Z) :
  slider_values st R → has_sliders st.
Proof. intros HR i f Hi. destruct (HR i f Hi) as (p & s & ? & ? & _). eauto. Qed.

Lemma has_sliders_rating_of (st : TLXApp) :
  has_sliders st → slider_values st (rating_of st).
Proof.
  intros Hs i f Hi. destruct (Hs i f Hi) as (p & s & Hp & Hsl).
  exists p, s. repeat split; [done..|].
  unfold rating_of. rewrite (index_NoDup _ _ _ NoDup_FACTORS Hi).
  rewrite Hp. cbn. now rewrite Hsl.
Qed.

Lemma run_snoc (st : TLXApp) (evs : list event) (ev : event) :
  run st (evs ++ [ev]) =
  ('(st, shown) ← run st evs;
   '(st, more) ← handle st ev;
   Ok (st, shown ++ more)).
Proof. unfold run. now rewrite foldl_app. Qed.

(** A property that every allowed event preserves holds at the end of a
    session made of allowed events. *)
Lemma run_invariant (P : TLXApp → Prop) (allowed : event → bool) :
  (∀ st ev st' more,
      allowed ev = true → P st → handle st ev = Ok (st', more) → P st') →
  ∀ evs st st' shown,
    (∀ ev, ev ∈ evs → allowed ev = true) →
    P st → run st evs = Ok (st', shown) → P st'.
Proof.
  intros Hstep evs. induction evs as [|ev evs IH] using rev_ind;
    intros st st' shown Hall HP Hrun.
  - injection Hrun as <- _. exact HP.
  - rewrite run_snoc in Hrun.
    destruct (run st evs) as [[st1 shown1]|e] eqn:E1; [|discriminate].
    cbn [mbind result_bind] in Hrun.
    destruct (handle st1 ev) as [[st2 more]|e] eqn:E2; [|discriminate].
    injection Hrun as <- _.
    apply (Hstep st1 ev st2 more); [|eapply IH; eauto|done].
    + apply Hall. apply elem_of_app. right. now left.
    + intros ev' Hev'. apply Hall. apply elem_of_app. now left.
Qed.

Lemma mouseEvent_preserves (st st' : TLXApp) (id : nat) (w : Z) (x : Q) :
  mouseEvent st id w x = Ok st' →
  use_weighting st' = use_weighting st
  ∧ weights st' = weights st
  ∧ button_groups st' = button_groups st
  ∧ (has_sliders st → has_sliders st').
Proof.
  unfold mouseEvent. intros H.
  destruct (pages st !! id) as [p|] eqn:Hp; [|injection H as <-; done].
  destruct (slider p) as [s|] eqn:Hs; [|injection H as <-; done].
  destruct (update_value s w x) as [s'|e]; [|discriminate].
  injection H as <-. repeat split.
  intros Hall i f Hi. destruct (Hall i f Hi) as (q & t & Hq & Ht).
  unfold page in *. cbn [set_pages pages].
  destruct (decide (id = i)) as [->|Hne].
  - rewrite list_lookup_insert_eq by (now apply lookup_lt_Some in Hq). eauto.
  - rewrite list_lookup_insert_ne by done. eauto.
Qed.

(** C9. Weighting enabled, a session without any click on the weighting
    page: every weight is still the 0 of [__init__], and whatever the
    sliders hold the Finish step builds a record whose adjusted ratings
    are all 0 and whose [weighted_rating] is 0. *)
Theorem finish_without_choices_scores_zero
    (evs : list event) (st : TLXApp) (shown : list QMessageBox) (now : string) :
  (∀ ev, ev ∈ evs → is_click ev = false) →
  (st0 ← TLXApp_init true; run st0 evs) = Ok (st, shown) →
  (∀ f, f ∈ FACTORS → weights st !! f = Some 0)
  ∧ ∃ st' rd,
      build_result st now = Ok (st', rd)
      ∧ (weighted_rating rd == 0)%Q
      ∧ (∀ f, f ∈ FACTORS → adjusted_ratings rd !! f = Some 0)
      ∧ (∀ f, f ∈ FACTORS → rd_ratings rd !! f = Some (rating_of st f)).
Proof.
  intros Hno Hrun. rewrite TLXApp_init_ok in Hrun. cbn [mbind result_bind] in Hrun.
  assert (Inv : use_weighting st = true
                ∧ weight_values st (λ _, 0) ∧ has_sliders st).
  { apply (run_invariant
             (λ st, use_weighting st = true
                    ∧ weight_values st (λ _, 0) ∧ has_sliders st)
             (λ ev, negb (is_click ev)))
      with (evs := evs) (st := fresh_app true) (shown := shown); [| | |done].
    - intros st1 [i j|id w x] st2 more Hev (Huw & Hw & Hs) Hh; [discriminate|].
      cbn [handle] in Hh.
      destruct (mouseEvent st1 id w x) as [st3|e] eqn:E; [|discriminate].
      injection Hh as <- _.
      destruct (mouseEvent_preserves _ _ _ _ _ E) as (Eu & Ew & _ & Hs').
      unfold weight_values. rewrite Eu, Ew. auto.
    - intros ev Hev. rewrite (Hno ev Hev). reflexivity.
    - repeat split.
      + apply fresh_app_weights.
      + apply (slider_values_has_sliders _ _ (fresh_app_sliders true)). }
  destruct Inv as (Huw & Hw & Hs). split; [exact Hw|].
  eexists _, _. split.
  { apply (build_result_weighted st (rating_of st) (λ _, 0)); [done| |done].
    now apply has_sliders_rating_of. }
  cbn [adjusted_ratings weighted_rating rd_ratings].
  repeat split.
  - replace (sum_over FACTORS (λ k, rating_of st k * 0)) with 0
      by (cbn; lia).
    reflexivity.
  - intros f Hf. rewrite (lookup_dict_of (λ k, rating_of st k * 0)) by done.
    f_equal. lia.
  - intros f Hf. now apply lookup_dict_of.
Qed.


Lemma finish_unweighted_score_witness :
  ∃ st' rd,
    build_result (fresh_app false) "2025-01-01T09:00:00" = Ok (st', rd)
    ∧ weighted_rating rd
      = (inject_Z (50 + (50 + (50 + (50 + (50 + (50 + 0))))))%Z / 6)%Q
    ∧ rd_weights rd = ∅
    ∧ adjusted_ratings rd = ∅
    ∧ (∀ f, f ∈ FACTORS → rd_ratings rd !! f = Some 50).
Proof.
  apply (finish_unweighted_score (fresh_app false) (λ _, 50)).
  - reflexivity.
  - intros i f Hi.
    destruct i as [|[|[|[|[|[|i]]]]]]; [..|discriminate Hi];
      injection Hi as <-; eexists _, _; repeat split; reflexivity.
Defined.

Lemma finish_without_choices_scores_zero_witness :
  (∀ f, f ∈ FACTORS → weights after_two_drags !! f = Some 0)
  ∧ ∃ st' rd,
      build_result after_two_drags "2025-01-01T09:00:00" = Ok (st', rd)
      ∧ (weighted_rating rd == 0)%Q
      ∧ (∀ f, f ∈ FACTORS → adjusted_ratings rd !! f = Some 0)
      ∧ (∀ f, f ∈ FACTORS → rd_ratings rd !! f = Some (rating_of after_two_drags f)).
Proof.
  apply (finish_without_choices_scores_zero two_drags after_two_drags []).
  - intros ev Hev.
    repeat (apply elem_of_cons in Hev as [->|Hev]); [..|inversion Hev]; reflexivity.
  - vm_compute. reflexivity.
Defined.

(** ** The weighting page *)

Lemma selects_selected (factor : string) (g : QButtonGroup) :
  selects factor g = true ↔ selected g = Some factor.
Proof.
  unfold selects, selected. destruct (checkedButton g) as [b|]; cbn.
  - rewrite String.eqb_eq. split; congruence.
  - split; discriminate.
Qed.

Lemma count_selects (factor : string) (groups : list QButtonGroup) :
  length (List.filter (selects factor) groups) = tally groups factor.
Proof.
  unfold tally. induction groups as [|g groups IH]; [reflexivity|].
  cbn [List.filter]. rewrite filter_cons.
  destruct (selects factor g) eqn:E.
  - apply selects_selected in E. rewrite decide_True by done.
    cbn [length]. now rewrite IH.
  - rewrite decide_False; [exact IH|].
    intros Hs. apply selects_selected in Hs. congruence.
Qed.

(** What [update_weights] computes, in closed form. *)
Lemma update_weights_ok (st : TLXApp) (groups : list QButtonGroup) :
  button_groups st = Some groups →
  update_weights st =
  Ok (set_weights st (dict_of (λ f, Z.of_nat (tally groups f)) FACTORS),
      if 15 <? sum_over FACTORS (λ f, Z.of_nat (tally groups f))
      then [warning "Error" "Total selections exceed 15. Adjust your choices."]
      else []).
Proof.
  intros Hg. unfold update_weights. rewrite Hg. cbn [or_raise mbind result_bind].
  rewrite (dict_comp_pure _ (λ f, Z.of_nat (tally groups f))).
  2:{ intros k _. now rewrite sum_ones, count_selects. }
  cbn [mbind result_bind set_weights weights].
  rewrite sum_values_dict_of by apply NoDup_FACTORS.
  now destruct (15 <? _).
Qed.

Lemma buttonClicked_ok (st : TLXApp) (groups : list QButtonGroup)
    (i j : nat) (g : QButtonGroup) :
  button_groups st = Some groups → groups !! i = Some g →
  buttonClicked st i j =
  update_weights (set_button_groups st (<[i := click g j]> groups)).
Proof. intros Hg Hi. unfold buttonClicked. now rewrite Hg, Hi. Qed.

(** C4. Whatever the rows currently select, [update_weights] raises
    nothing and stores, for each factor, the number of rows in which that
    factor is the selected one; and a click on any button of any row ends
    with the tally of the selections as they are after the click. *)
Theorem update_weights_counts_selections
    (st : TLXApp) (groups : list QButtonGroup) :
  button_groups st = Some groups →
  (∃ st' shown,
      update_weights st = Ok (st', shown)
      ∧ button_groups st' = Some groups
      ∧ ∀ f, f ∈ FACTORS → weights st' !! f = Some (Z.of_nat (tally groups f)))
  ∧ (∀ i j g, groups !! i = Some g →
       ∃ st' shown,
         buttonClicked st i j = Ok (st', shown)
         ∧ button_groups st' = Some (<[i := click g j]> groups)
         ∧ ∀ f, f ∈ FACTORS →
             weights st' !! f
             = Some (Z.of_nat (tally (<[i := click g j]> groups) f))).
Proof.
  intros Hg. split.
  - eexists _, _. split; [exact (update_weights_ok st groups Hg)|].
    split; [exact Hg|]. intros f Hf. cbn [set_weights weights].
    now apply (lookup_dict_of (λ f, Z.of_nat (tally groups f))).
  - intros i j g Hi. eexists _, _.
    rewrite (buttonClicked_ok st groups i j g Hg Hi).
    split; [apply (update_weights_ok _ (<[i := click g j]> groups)); reflexivity|].
    split; [reflexivity|]. intros f Hf. cbn [set_weights weights].
    now apply (lookup_dict_of (λ f, Z.of_nat (tally _ f))).
Qed.

(** C7. [update_weights] shows the warning exactly when the tallies of
    the six factors add up to more than 15. Shown or not, the call
    returns normally, the stored weights are the tallies, nothing else in
    the application changes, and Finish still builds its record. *)
Theorem update_weights_warning (st : TLXApp) (groups : list QButtonGroup) :
  button_groups st = Some groups →
  ∃ st' shown,
    update_weights st = Ok (st', shown)
    ∧ (shown = [warning "Error" "Total selections exceed 15. Adjust your choices."]
       ↔ 15 < sum_over FACTORS (λ f, Z.of_nat (tally groups f)))
    ∧ (shown = [] ↔ sum_over FACTORS (λ f, Z.of_nat (tally groups f)) ≤ 15)
    ∧ st' = set_weights st (dict_of (λ f, Z.of_nat (tally groups f)) FACTORS)
    ∧ (∀ R now, slider_values st R →
         ∃ st'' rd, build_result st' now = Ok (st'', rd)).
Proof.
  intros Hg. eexists _, _. split; [exact (update_weights_ok st groups Hg)|].
  destruct (Z.ltb_spec 15 (sum_over FACTORS (λ f, Z.of_nat (tally groups f))))
    as [Hlt|Hle].
  - repeat split; try done; try lia.
    intros R now HR. destruct (use_weighting st) eqn:Huw.
    + eexists _, _.
      apply (build_result_weighted _ R (λ f, Z.of_nat (tally groups f))); try done.
      intros f Hf. now apply (lookup_dict_of (λ f, Z.of_nat (tally groups f))).
    + eexists _, _. now apply (build_result_unweighted _ R).
  - repeat split; try done; try lia.
    intros R now HR. destruct (use_weighting st) eqn:Huw.
    + eexists _, _.
      apply (build_result_weighted _ R (λ f, Z.of_nat (tally groups f))); try done.
      intros f Hf. now apply (lookup_dict_of (λ f, Z.of_nat (tally groups f))).
    + eexists _, _. now apply (build_result_unweighted _ R).
Qed.

Lemma inner_loop (f1 : string) (l : list string) (acc : list QButtonGroup) :
  foldl (λ acc f2, acc ++ [mkGroup [mkRadio f1 false; mkRadio f2 false]]) acc l
  = acc ++ (fresh_row <$> (pair f1 <$> l)).
Proof.
  revert acc. induction l as [|f2 l IH]; intros acc; cbn.
  - now rewrite app_nil_r.
  - rewrite IH, <- app_assoc. reflexivity.
Qed.

Lemma outer_loop (pre suf : list string) (acc : list QButtonGroup) :
  foldl (λ acc '(i, f1),
           foldl (λ acc f2, acc ++ [mkGroup [mkRadio f1 false; mkRadio f2 false]])
                 acc (drop (S i) (pre ++ suf)))
        acc (imap (λ i x, (length pre + i, x)%nat) suf)
  = acc ++ (fresh_row <$> ordered_pairs suf).
Proof.
  revert pre acc. induction suf as [|x suf IH]; intros pre acc.
  - cbn. now rewrite app_nil_r.
  - cbn [imap foldl ordered_pairs].
    rewrite inner_loop.
    replace (drop (S (length pre + 0)) (pre ++ x :: suf)) with suf.
    2:{ rewrite Nat.add_0_r. change (S (length pre)) with (1 + length pre)%nat.
        rewrite Nat.add_comm, <- drop_drop, drop_app_length. reflexivity. }
    rewrite (imap_ext _ (λ i y, (length (pre ++ [x]) + i, y)%nat)).
    2:{ intros i y _. cbn. rewrite length_app. cbn. f_equal. lia. }
    replace (pre ++ x :: suf) with ((pre ++ [x]) ++ suf)
      by (now rewrite <- app_assoc).
    rewrite IH, fmap_app, app_assoc. reflexivity.
Qed.

(** The two nested loops enumerate the pairs of positions [i < j] in
    lexicographic order, whatever the list of factors. *)
Lemma weighting_rows_ordered_pairs (factors : list string) :
  weighting_rows factors = fresh_row <$> ordered_pairs factors.
Proof. apply (outer_loop [] factors []). Qed.

Lemma length_ordered_pairs (l : list string) :
  (2 * length (ordered_pairs l) = length l * (length l - 1))%nat.
Proof.
  induction l as [|x l IH]; [reflexivity|].
  cbn [ordered_pairs length]. rewrite length_app, length_fmap. nia.
Qed.

Lemma click_lookup (g : QButtonGroup) (j k : nat) :
  (j < length (buttons g))%nat →
  buttons (click g j) !! k
  = (λ b, mkRadio (text b) (Nat.eqb k j)) <$> buttons g !! k.
Proof.
  intros Hj. unfold click. rewrite decide_True by done. cbn [buttons].
  apply list_lookup_imap.
Qed.

Lemma click_exclusive (g : QButtonGroup) (j : nat) :
  exclusive g → exclusive (click g j).
Proof.
  intros Hg. unfold click. case_decide; [|exact Hg].
  intros k1 k2 b1 b2. cbn [buttons]. rewrite !list_lookup_imap.
  destruct (buttons g !! k1), (buttons g !! k2); cbn; try discriminate.
  intros [= <-] [= <-]. cbn.
  intros E1%Nat.eqb_eq E2%Nat.eqb_eq. congruence.
Qed.

Lemma find_checked_imap (l : list QRadioButton) (n j : nat) (b : QRadioButton) :
  l !! j = Some b →
  List.find isChecked
    (imap (λ k b, mkRadio (text b) (Nat.eqb (n + k) (n + j))) l)
  = Some (mkRadio (text b) true).
Proof.
  revert n j. induction l as [|c l IH]; intros n j Hj; [discriminate|].
  cbn [imap List.find isChecked]. destruct j as [|j].
  - injection Hj as <-. now rewrite Nat.eqb_refl.
  - assert (E : Nat.eqb (n + 0) (n + S j) = false) by (apply Nat.eqb_neq; lia).
    rewrite E.
    rewrite (imap_ext _ (λ k b, mkRadio (text b) (Nat.eqb (S n + k) (S n + j)))).
    + now apply IH.
    + intros k y _. cbn [compose].
      replace (n + S k)%nat with (S n + k)%nat by lia.
      replace (n + S j)%nat with (S n + j)%nat by lia. reflexivity.
Qed.

Lemma click_selected (g : QButtonGroup) (j : nat) :
  (j < length (buttons g))%nat → selected (click g j) = row_labels g !! j.
Proof.
  intros Hj. unfold selected, checkedButton, click, row_labels.
  rewrite decide_True by done. cbn [buttons].
  destruct (lookup_lt_is_Some_2 _ _ Hj) as [b Hb].
  pose proof (find_checked_imap (buttons g) 0 j b Hb) as Hf. cbn in Hf.
  rewrite Hf, list_lookup_fmap, Hb. reflexivity.
Qed.

Lemma click_row_labels (g : QButtonGroup) (j : nat) :
  row_labels (click g j) = row_labels g.
Proof.
  unfold click, row_labels. case_decide; [|reflexivity]. cbn [buttons].
  apply list_eq. intros k. rewrite !list_lookup_fmap, list_lookup_imap.
  now destruct (buttons g !! k).
Qed.

Lemma fresh_row_exclusive (p : string * string) : exclusive (fresh_row p).
Proof.
  intros k1 k2 b1 b2 H1 H2 C1 _.
  destruct k1 as [|[|k1]]; cbn in H1; try discriminate;
    injection H1 as <-; discriminate.
Qed.

Lemma fresh_app_rows_intact : rows_intact (fresh_app true).
Proof.
  exists (weighting_rows FACTORS). repeat split.
  rewrite weighting_rows_ordered_pairs. apply Forall_fmap, Forall_forall.
  intros p _. apply fresh_row_exclusive.
Qed.

Lemma buttonClicked_groups (st st' : TLXApp) (shown : list QMessageBox)
    (groups : list QButtonGroup) (i j : nat) :
  button_groups st = Some groups →
  buttonClicked st i j = Ok (st', shown) →
  button_groups st' =
  Some (match groups !! i with
        | Some g => <[i := click g j]> groups
        | None => groups
        end).
Proof.
  intros Hg H. unfold buttonClicked in H. rewrite Hg in H.
  destruct (groups !! i) as [g|]; [|injection H as <- _; exact Hg].
  rewrite (update_weights_ok _ (<[i := click g j]> groups)) in H by reflexivity.
  injection H as <- _. reflexivity.
Qed.

Lemma handle_rows_intact (st st' : TLXApp) (ev : event) (more : list QMessageBox) :
  rows_intact st → handle st ev = Ok (st', more) → rows_intact st'.
Proof.
  intros (groups & Hg & Hl & Hx) H. destruct ev as [i j|id w x]; cbn [handle] in H.
  - pose proof (buttonClicked_groups _ _ _ _ _ _ Hg H) as Hg'.
    destruct (groups !! i) as [g|] eqn:Hi; [|exists groups; done].
    exists (<[i := click g j]> groups). split; [exact Hg'|]. split.
    + rewrite list_fmap_insert, click_row_labels, <- Hl.
      apply list_insert_id. now rewrite list_lookup_fmap, Hi.
    + apply Forall_insert; [exact Hx|]. apply click_exclusive.
      apply (Forall_lookup_1 _ _ _ _ Hx Hi).
  - destruct (mouseEvent st id w x) as [st1|e] eqn:E; [|discriminate].
    injection H as <- _.
    destruct (mouseEvent_preserves _ _ _ _ _ E) as (_ & _ & Eg & _).
    exists groups. now rewrite Eg.
Qed.

Lemma ordered_pairs_distinct (l : list string) (a b : string) :
  NoDup l → (a, b) ∈ ordered_pairs l → a ∈ l ∧ b ∈ l ∧ a ≠ b.
Proof.
  induction l as [|x l IH]; intros Hnd Hab; [inversion Hab|].
  apply NoDup_cons in Hnd as [Hx Hnd]. cbn [ordered_pairs] in Hab.
  apply elem_of_app in Hab as [Hab|Hab].
  - apply list_elem_of_fmap in Hab as (y & [= -> ->] & Hy).
    repeat split; [now left|now right|congruence].
  - destruct (IH Hnd Hab) as (Ha & Hb & Hne).
    repeat split; [now right|now right|exact Hne].
Qed.

Lemma pair_cases (a b : string) :
  a ∈ FACTORS → b ∈ FACTORS → a ≠ b →
  length (filter (λ p, p = (a, b) ∨ p = (b, a)) (ordered_pairs FACTORS)) = 1%nat.
Proof.
  intros Ha Hb Hne.
  each_factor Ha; each_factor Hb; solve [congruence | vm_compute; reflexivity].
Qed.

(** C8. The weighting page, the seventh page of the wizard, has 15 rows,
    each followed by a rule. Their captions are the pairs of
    factors at positions [i < j] of [FACTORS], in lexicographic order of
    the positions; every pair of distinct factors is the caption of
    exactly one row, in one of its two orders, and no row pairs a factor
    with itself. Every row starts with nothing selected. In a session each
    row has at most one button checked, and a click on a button of a row
    selects that button's factor in that row and leaves every other row
    as it was. *)
Theorem weighting_page_rows :
  (∃ st p,
      TLXApp_init true = Ok st
      ∧ button_groups st = Some (weighting_rows FACTORS)
      ∧ page st 6 = Some p
      ∧ layout p
        = mjoin ((λ p, [ChoiceRow p.1 p.2; HLine]) <$> ordered_pairs FACTORS))
  ∧ length (weighting_rows FACTORS) = 15%nat
  ∧ row_labels <$> weighting_rows FACTORS
    = (λ p, [p.1; p.2]) <$> ordered_pairs FACTORS
  ∧ (∀ g, g ∈ weighting_rows FACTORS → selected g = None)
  ∧ (∀ a b, a ∈ FACTORS → b ∈ FACTORS → a ≠ b →
       length (filter (λ p, p = (a, b) ∨ p = (b, a)) (ordered_pairs FACTORS))
       = 1%nat)
  ∧ (∀ a b, (a, b) ∈ ordered_pairs FACTORS → a ≠ b)
  ∧ (∀ evs st shown,
       (st0 ← TLXApp_init true; run st0 evs) = Ok (st, shown) →
       ∃ groups,
         button_groups st = Some groups
         ∧ row_labels <$> groups = row_labels <$> weighting_rows FACTORS
         ∧ Forall exclusive groups)
  ∧ (∀ st groups i j g,
       button_groups st = Some groups → groups !! i = Some g →
       (j < length (buttons g))%nat →
       ∃ st' shown,
         buttonClicked st i j = Ok (st', shown)
         ∧ ∃ groups',
             button_groups st' = Some groups'
             ∧ length groups' = length groups
             ∧ (selected <$> groups' !! i) = Some (row_labels g !! j)
             ∧ ∀ k, k ≠ i → groups' !! k = groups !! k).
Proof.
  split.
  { exists (fresh_app true). eexists. split; [apply TLXApp_init_ok|].
    repeat split. }
  split; [reflexivity|]. split; [reflexivity|].
  split.
  { intros g Hg. rewrite weighting_rows_ordered_pairs in Hg.
    apply list_elem_of_fmap in Hg as (p & -> & _). reflexivity. }
  split; [exact pair_cases|].
  split.
  { intros a b Hab.
    now destruct (ordered_pairs_distinct FACTORS a b NoDup_FACTORS Hab)
      as (_ & _ & Hne). }
  split.
  { intros evs st shown Hrun. rewrite TLXApp_init_ok in Hrun.
    cbn [mbind result_bind] in Hrun.
    apply (run_invariant rows_intact (λ _, true))
      with (evs := evs) (st := fresh_app true) (shown := shown);
      [|done|apply fresh_app_rows_intact|done].
    intros st1 ev st2 more _. apply handle_rows_intact. }
  intros st groups i j g Hg Hi Hj.
  eexists _, _. rewrite (buttonClicked_ok st groups i j g Hg Hi).
  split; [apply (update_weights_ok _ (<[i := click g j]> groups)); reflexivity|].
  exists (<[i := click g j]> groups). split; [reflexivity|].
  split; [apply length_insert|]. split.
  - rewrite list_lookup_insert_eq by (now apply lookup_lt_Some in Hi).
    cbn. now rewrite click_selected.
  - intros k Hk. now apply list_lookup_insert_ne.
Qed.

Lemma update_weights_counts_selections_witness :
  (∃ st' shown,
      update_weights (fresh_app true) = Ok (st', shown)
      ∧ button_groups st' = Some (weighting_rows FACTORS)
      ∧ ∀ f, f ∈ FACTORS →
          weights st' !! f = Some (Z.of_nat (tally (weighting_rows FACTORS) f)))
  ∧ (∀ i j g, weighting_rows FACTORS !! i = Some g →
       ∃ st' shown,
         buttonClicked (fresh_app true) i j = Ok (st', shown)
         ∧ button_groups st' = Some (<[i := click g j]> (weighting_rows FACTORS))
         ∧ ∀ f, f ∈ FACTORS →
             weights st' !! f
             = Some (Z.of_nat (tally (<[i := click g j]> (weighting_rows FACTORS)) f))).
Proof.
  apply (update_weights_counts_selections (fresh_app true) (weighting_rows FACTORS)).
  reflexivity.
Defined.

Lemma update_weights_warning_witness :
  ∃ st' shown,
    update_weights (fresh_app true) = Ok (st', shown)
    ∧ (shown = [warning "Error" "Total selections exceed 15. Adjust your choices."]
       ↔ 15 < sum_over FACTORS (λ f, Z.of_nat (tally (weighting_rows FACTORS) f)))
    ∧ (shown = []
       ↔ sum_over FACTORS (λ f, Z.of_nat (tally (weighting_rows FACTORS) f)) ≤ 15)
    ∧ st' = set_weights (fresh_app true)
              (dict_of (λ f, Z.of_nat (tally (weighting_rows FACTORS) f)) FACTORS)
    ∧ (∀ R now, slider_values (fresh_app true) R →
         ∃ st'' rd, build_result st' now = Ok (st'', rd)).
Proof.
  apply (update_weights_warning (fresh_app true) (weighting_rows FACTORS)).
  reflexivity.
Defined.

(** Sixteen rows that all select Effort: a state no session reaches, in
    which the warning is shown. *)
Example update_weights_warns_on_16 :
  let g := mkGroup [mkRadio "Effort" true; mkRadio "Frustration" false] in
  let st := set_button_groups (fresh_app true) (replicate 16 g) in
  ∃ st', update_weights st
         = Ok (st', [warning "Error" "Total selections exceed 15. Adjust your choices."]).
Proof. eexists. vm_compute. reflexivity. Qed.

(** *** The warning is never shown in a session *)

Lemma sum_over_add (l : list string) (a b : string → Z) :
  sum_over l (λ k, a k + b k) = sum_over l a + sum_over l b.
Proof. unfold sum_over. induction l as [|k l IH]; cbn [foldr]; lia. Qed.

Lemma sum_over_indicator (l : list string) (o : option string) :
  NoDup l →
  0 ≤ sum_over l (λ k, if decide (o = Some k) then 1 else 0) ≤ 1.
Proof.
  unfold sum_over. induction l as [|x l IH]; intros Hnd; cbn [foldr]; [lia|].
  apply NoDup_cons in Hnd as [Hx Hnd]. specialize (IH Hnd).
  case_decide as Ho; [|lia].
  assert (E : foldr (λ k acc, (if decide (o = Some k) then 1 else 0) + acc) 0 l = 0).
  { clear IH Hnd. induction l as [|y l IH]; [reflexivity|]. cbn [foldr].
    apply not_elem_of_cons in Hx as [Hxy Hx].
    rewrite decide_False by congruence. rewrite IH; [lia|done]. }
  lia.
Qed.

Lemma tally_cons (g : QButtonGroup) (groups : list QButtonGroup) (f : string) :
  Z.of_nat (tally (g :: groups) f)
  = (if decide (selected g = Some f) then 1 else 0) + Z.of_nat (tally groups f).
Proof.
  unfold tally. rewrite filter_cons. case_decide; cbn [length]; lia.
Qed.

(** Each row counts for at most one factor. *)
Lemma tally_total_le_rows (groups : list QButtonGroup) :
  sum_over FACTORS (λ f, Z.of_nat (tally groups f)) ≤ Z.of_nat (length groups).
Proof.
  induction groups as [|g groups IH]; [cbn; lia|].
  assert (E : sum_over FACTORS (λ f, Z.of_nat (tally (g :: groups) f))
              = sum_over FACTORS (λ f, if decide (selected g = Some f) then 1 else 0)
                + sum_over FACTORS (λ f, Z.of_nat (tally groups f))).
  { rewrite <- sum_over_add. unfold sum_over, FACTORS. cbn [foldr].
    rewrite !tally_cons. reflexivity. }
  rewrite E. pose proof (sum_over_indicator FACTORS (selected g) NoDup_FACTORS).
  cbn [length]. lia.
Qed.

Lemma handle_no_warning (st st' : TLXApp) (ev : event) (more : list QMessageBox) :
  rows_intact st → handle st ev = Ok (st', more) → more = [].
Proof.
  intros (groups & Hg & Hl & _) H. destruct ev as [i j|id w x]; cbn [handle] in H.
  - unfold buttonClicked in H. rewrite Hg in H.
    destruct (groups !! i) as [g|]; [|now injection H as _ <-].
    rewrite (update_weights_ok _ (<[i := click g j]> groups)) in H by reflexivity.
    assert (E : (15 <? sum_over FACTORS
                         (λ f, Z.of_nat (tally (<[i := click g j]> groups) f)))
                = false).
    { apply Z.ltb_ge.
      pose proof (tally_total_le_rows (<[i := click g j]> groups)) as Hle.
      rewrite length_insert in Hle.
      apply (f_equal length) in Hl. rewrite !length_fmap in Hl.
      rewrite Hl in Hle. exact Hle. }
    rewrite E in H. now injection H as _ <-.
  - destruct (mouseEvent st id w x); [|discriminate]. now injection H as _ <-.
Qed.

(** X20. With fifteen exclusive rows the tallies never add up to more
    than 15: no session shows the warning. *)
Lemma session_never_warns (evs : list event) (st : TLXApp) (shown : list QMessageBox) :
  (st0 ← TLXApp_init true; run st0 evs) = Ok (st, shown) → shown = [].
Proof.
  rewrite TLXApp_init_ok. cbn [mbind result_bind].
  revert st shown. induction evs as [|ev evs IH] using rev_ind; intros st shown Hrun.
  - now injection Hrun as _ <-.
  - rewrite run_snoc in Hrun.
    destruct (run (fresh_app true) evs) as [[st1 shown1]|e] eqn:E1; [|discriminate].
    cbn [mbind result_bind] in Hrun.
    destruct (handle st1 ev) as [[st2 more]|e] eqn:E2; [|discriminate].
    injection Hrun as _ <-.
    rewrite (IH st1 shown1 eq_refl). cbn.
    apply (handle_no_warning st1 st2 ev); [|exact E2].
    apply (run_invariant rows_intact (λ _, true))
      with (evs := evs) (st := fresh_app true) (shown := shown1);
      [|done|apply fresh_app_rows_intact|done].
    intros ? ? ? ? _. apply handle_rows_intact.
Qed.

(** ** The two logs *)

Lemma writerow_csv_data (uw : bool) (rd : result_data) :
  writerow (fieldnames uw) (csv_data uw rd) = Ok (csv_row uw rd).
Proof. destruct uw; vm_compute; reflexivity. Qed.

Lemma writeheader_fieldnames (uw : bool) :
  writeheader (fieldnames uw) = csv_header uw.
Proof. now destruct uw. Qed.

Lemma json_log_load (fs : data_dir) (records : list pyval) :
  json_log fs records →
  match json_file fs with
  | Some t => json_load t
  | None => Ok (PyList [])
  end = Ok (PyList records).
Proof. now intros [[-> ->]| ->]. Qed.

(** What [save_to_files] leaves in the data directory. *)
Lemma save_to_files_ok (st : TLXApp) (rd : result_data) (fs : data_dir)
    (records : list pyval) :
  json_log fs records →
  save_to_files st rd fs =
  Ok {| json_file := Some (JsonOf (PyList (records ++ [py_of_result rd])));
        csv_file :=
          Some (match csv_file fs with
                | Some rows => rows ++ [csv_row (use_weighting st) rd]
                | None => [csv_header (use_weighting st);
                           csv_row (use_weighting st) rd]
                end) |}.
Proof.
  intros Hj. unfold save_to_files. rewrite (json_log_load fs records Hj).
  cbn [mbind result_bind append json_dump csv_file json_file].
  rewrite writerow_csv_data, writeheader_fieldnames.
  cbn [mbind result_bind]. now destruct (csv_file fs).
Qed.

(** C5. When the JSON log holds an array of N records, [save_to_files]
    raises nothing and leaves an array of N+1 records: the N records as
    they were, then the new one. When the log is absent or holds the
    empty array, reloading gives the one-element array of the new
    record. *)
Theorem json_log_append (st : TLXApp) (rd : result_data) (fs : data_dir)
    (records : list pyval) :
  json_log fs records →
  ∃ fs' records',
    save_to_files st rd fs = Ok fs'
    ∧ json_load <$> json_file fs' = Some (Ok (PyList records'))
    ∧ length records' = S (length records)
    ∧ take (length records) records' = records
    ∧ last records' = Some (py_of_result rd)
    ∧ (records = [] → records' = [py_of_result rd]).
Proof.
  intros Hj. eexists _, (records ++ [py_of_result rd]).
  split; [exact (save_to_files_ok st rd fs records Hj)|].
  split; [reflexivity|].
  split; [rewrite length_app; cbn; lia|].
  split; [now rewrite take_app_length|].
  split; [apply last_snoc|].
  now intros ->.
Qed.

Lemma json_log_append_witness :
  ∃ fs' records',
    save_to_files (fresh_app true)
      (mkResult "2025-01-01T09:00:00" ∅ ∅ ∅ 0) (mkDataDir None None) = Ok fs'
    ∧ json_load <$> json_file fs' = Some (Ok (PyList records'))
    ∧ length records' = S (length (@nil pyval))
    ∧ take (length (@nil pyval)) records' = []
    ∧ last records' = Some (py_of_result (mkResult "2025-01-01T09:00:00" ∅ ∅ ∅ 0))
    ∧ (@nil pyval = [] →
       records' = [py_of_result (mkResult "2025-01-01T09:00:00" ∅ ∅ ∅ 0)]).
Proof.
  apply (json_log_append (fresh_app true)
           (mkResult "2025-01-01T09:00:00" ∅ ∅ ∅ 0) (mkDataDir None None) []).
  left. split; reflexivity.
Defined.


Lemma save_all_cons (p : TLXApp * result_data) (runs : list (TLXApp * result_data))
    (fs fs1 : data_dir) :
  save_to_files p.1 p.2 fs = Ok fs1 →
  save_all (p :: runs) fs = save_all runs fs1.
Proof.
  intros H. unfold save_all. cbn [foldl]. destruct p as [st rd].
  cbn [mbind result_bind]. cbn in H. now rewrite H.
Qed.

Lemma save_all_appends (uw : bool) (runs : list (TLXApp * result_data))
    (fs : data_dir) (records : list pyval) (rows : list (list cell)) :
  (∀ p, p ∈ runs → use_weighting p.1 = uw) →
  json_log fs records → csv_file fs = Some rows →
  ∃ fs', save_all runs fs = Ok fs'
         ∧ json_log fs' (records ++ (py_of_result ∘ snd <$> runs))
         ∧ csv_file fs' = Some (rows ++ (csv_row uw ∘ snd <$> runs)).
Proof.
  revert fs records rows. induction runs as [|[st rd] runs IH];
    intros fs records rows Huw Hj Hc.
  - exists fs. cbn. rewrite !app_nil_r. repeat split; [exact Hj|exact Hc].
  - rewrite (save_all_cons (st, rd) runs fs _ (save_to_files_ok st rd fs records Hj)).
    assert (Hu : use_weighting st = uw) by (apply (Huw (st, rd)); left).
    rewrite Hc, Hu.
    destruct (IH (mkDataDir
                    (Some (JsonOf (PyList (records ++ [py_of_result rd]))))
                    (Some (rows ++ [csv_row uw rd])))
                 (records ++ [py_of_result rd])
                 (rows ++ [csv_row uw rd])) as (fs' & Hs & Hj' & Hc').
    + intros p Hp. apply Huw. now right.
    + right. reflexivity.
    + reflexivity.
    + exists fs'. split; [exact Hs|].
      rewrite fmap_cons. cbn [compose snd].
      rewrite <- !app_assoc in Hj', Hc'. now split.
Qed.

Lemma csv_row_length (uw : bool) (rd : result_data) :
  length (csv_row uw rd) = length (csv_header uw).
Proof. now destruct uw. Qed.

Lemma csv_row_not_header (uw : bool) (rd : result_data) :
  csv_row uw rd ≠ csv_header uw.
Proof.
  intros E. apply (f_equal last) in E. destruct uw; cbn in E; discriminate.
Qed.

(** C6. N ≥ 1 Finish clicks in one weighting mode on a data directory
    without a CSV log (and a JSON log that loads) raise nothing and leave
    a CSV log made of one header row followed by N data rows, one per
    record in order, every row as long as the header. The header is
    [timestamp], the six factor names in the order of [FACTORS], the six
    [adjusted_<factor>] names in the same order when weighting is enabled,
    then [weighted_rating]; a data row holds the values in that order. *)
Theorem csv_log_rows (uw : bool) (N : nat) (runs : list (TLXApp * result_data))
    (fs : data_dir) (records : list pyval) :
  (1 ≤ N)%nat →
  length runs = N →
  (∀ p, p ∈ runs → use_weighting p.1 = uw) →
  csv_file fs = None →
  json_log fs records →
  ∃ fs' rows,
    save_all runs fs = Ok fs'
    ∧ csv_file fs' = Some (csv_header uw :: rows)
    ∧ length rows = N
    ∧ rows = (csv_row uw ∘ snd <$> runs)
    ∧ Forall (λ row, length row = length (csv_header uw)) rows
    ∧ Forall (λ row, row ≠ csv_header uw) rows
    ∧ csv_header uw
      = CStr <$> (["timestamp"] ++ FACTORS
                  ++ (if uw then (λ f, "adjusted_" +:+ f) <$> FACTORS else [])
                  ++ ["weighted_rating"]).
Proof.
  intros HN Hlen Huw Hc Hj.
  destruct runs as [|[st rd] runs]; [cbn in Hlen; lia|].
  rewrite (save_all_cons (st, rd) runs fs _ (save_to_files_ok st rd fs records Hj)).
  assert (Hu : use_weighting st = uw) by (apply (Huw (st, rd)); left).
  rewrite Hc, Hu.
  destruct (save_all_appends uw runs
              (mkDataDir
                 (Some (JsonOf (PyList (records ++ [py_of_result rd]))))
                 (Some [csv_header uw; csv_row uw rd]))
              (records ++ [py_of_result rd])
              [csv_header uw; csv_row uw rd]) as (fs' & Hs & _ & Hc').
  { intros p Hp. apply Huw. now right. }
  { right. reflexivity. }
  { reflexivity. }
  exists fs', (csv_row uw ∘ snd <$> (st, rd) :: runs).
  split; [exact Hs|]. split; [exact Hc'|].
  split; [now rewrite length_fmap|]. split; [reflexivity|].
  split; [|split].
  - apply Forall_fmap, Forall_forall. intros p _. apply csv_row_length.
  - apply Forall_fmap, Forall_forall. intros p _. apply csv_row_not_header.
  - now destruct uw.
Qed.

Lemma csv_log_rows_witness :
  let rd1 := mkResult "2025-01-01T09:00:00" (dict_of (λ _, 50) FACTORS)
               (dict_of (λ _, 0) FACTORS) (dict_of (λ _, 0) FACTORS) 0 in
  let rd2 := mkResult "2025-01-01T09:05:00" (dict_of (λ _, 85) FACTORS)
               (dict_of (λ _, 0) FACTORS) (dict_of (λ _, 0) FACTORS) 0 in
  let runs := [(fresh_app true, rd1); (fresh_app true, rd2)] in
  ∃ fs' rows,
    save_all runs (mkDataDir None None) = Ok fs'
    ∧ csv_file fs' = Some (csv_header true :: rows)
    ∧ length rows = 2%nat
    ∧ rows = (csv_row true ∘ snd <$> runs)
    ∧ Forall (λ row, length row = length (csv_header true)) rows
    ∧ Forall (λ row, row ≠ csv_header true) rows
    ∧ csv_header true
      = CStr <$> (["timestamp"] ++ FACTORS
                  ++ ((λ f, "adjusted_" +:+ f) <$> FACTORS)
                  ++ ["weighted_rating"]).
Proof.
  intros rd1 rd2 runs.
  apply (csv_log_rows true 2 runs (mkDataDir None None) []).
  - lia.
  - reflexivity.
  - intros p Hp.
    repeat (apply elem_of_cons in Hp as [->|Hp]); [..|inversion Hp]; reflexivity.
  - reflexivity.
  - left. split; reflexivity.
Defined.

#[local] Instance PyInt_inj : Inj (=) (=) PyInt.
Proof. intros x y E. now injection E. Qed.

(** The Python value of a record determines the record: an element of the
    reloaded array that equals [py_of_result rd] is the record [rd]. *)
Lemma py_of_result_inj (rd rd' : result_data) :
  py_of_result rd = py_of_result rd' → rd = rd'.
Proof.
  destruct rd as [t r w a s], rd' as [t' r' w' a' s']. intros E.
  apply (f_equal items) in E.
  pose proof (f_equal (λ m, m !! "timestamp") E) as Et.
  pose proof (f_equal (λ m, items <$> m !! "ratings") E) as Er.
  pose proof (f_equal (λ m, items <$> m !! "weights") E) as Ew.
  pose proof (f_equal (λ m, items <$> m !! "adjusted_ratings") E) as Ea.
  pose proof (f_equal (λ m, m !! "weighted_rating") E) as Es.
  clear E.
  change (Some (PyStr t) = Some (PyStr t')) in Et.
  change (Some (PyFloat s) = Some (PyFloat s')) in Es.
  change (Some (PyInt <$> r) = Some (PyInt <$> r')) in Er.
  change (Some (PyInt <$> w) = Some (PyInt <$> w')) in Ew.
  change (Some (PyInt <$> a) = Some (PyInt <$> a')) in Ea.
  injection Et as ->. injection Es as ->.
  injection Er as ->%(inj (fmap PyInt)).
  injection Ew as ->%(inj (fmap PyInt)).
  injection Ea as ->%(inj (fmap PyInt)).
  reflexivity.
Qed.

(** ** Finish, end to end *)

(** The record [build_result] computes is the one [save_results] hands to
    both logs. *)
Lemma save_results_persists (st st' : TLXApp) (rd : result_data) (now : string)
    (fs : data_dir) (records : list pyval) :
  build_result st now = Ok (st', rd) →
  json_log fs records →
  ∃ fs', save_results st now fs = Ok (st', fs')
         ∧ json_file fs' = Some (JsonOf (PyList (records ++ [py_of_result rd])))
         ∧ ∃ rows, csv_file fs' = Some (rows ++ [csv_row (use_weighting st') rd]).
Proof.
  intros Hb Hj. unfold save_results. rewrite Hb. cbn [mbind result_bind].
  rewrite (save_to_files_ok st' rd fs records Hj). cbn [mbind result_bind].
  eexists. split; [reflexivity|]. split; [reflexivity|].
  destruct (csv_file fs) as [rows|].
  - now exists rows.
  - now exists [csv_header (use_weighting st')].
Qed.

(** All six sliders left at 50, weighting disabled: the score is 50. *)
Example untouched_sliders_unweighted :
  ∃ st rd, build_result (fresh_app false) "2025-01-01T09:00:00" = Ok (st, rd)
           ∧ (weighted_rating rd == 50)%Q.
Proof.
  eexists _, _. split.
  - apply (build_result_unweighted _ (λ _, 50)); [reflexivity|].
    apply fresh_app_sliders.
  - reflexivity.
Qed.

(** * Further properties *)

(** ** The slider, continued *)


Lemma round_mono (q q' : Q) : (q <= q')%Q → round q ≤ round q'.
Proof.
  intros Hq. destruct (Z_le_gt_dec (round q) (round q')) as [|Hgt]; [done|].
  exfalso.
  destruct (floor_bounds q) as [Hl Hh], (floor_bounds q') as [Hl' Hh'].
  assert (Hfl : Qfloor q ≤ Qfloor q').
  { assert (Hlt : (inject_Z (Qfloor q) < inject_Z (Qfloor q' + 1))%Q)
      by (rewrite inject_Z_plus; change (inject_Z 1) with 1%Q; lra).
    rewrite <- Zlt_Qlt in Hlt. lia. }
  destruct (round_cases q) as [[E Hr]|[E Hr]],
           (round_cases q') as [[E' Hr']|[E' Hr']]; try lia.
  assert (Efl : Qfloor q' = Qfloor q) by lia.
  rewrite Efl in Hr'.
  assert (Eq : (q == q')%Q) by lra.
  rewrite (round_proper _ _ Eq) in Hgt. lia.
Qed.


Lemma snapped_mono (s : TLXSlider) (f f' : Q) :
  step s ≠ 0 → min_val s ≤ max_val s → (f <= f')%Q → snapped s f ≤ snapped s f'.
Proof.
  intros Hs Hle Hf. unfold snapped. fold (target s f) (target s f').
  assert (Ht : (target s f <= target s f')%Q).
  { unfold target. apply Qplus_le_r. apply Qmult_le_compat_r; [exact Hf|].
    change 0%Q with (inject_Z 0). rewrite <- Zle_Qle. lia. }
  assert (Hnz : ¬ (inject_Z (step s) == 0)%Q) by now apply inject_Z_nonzero.
  destruct (Z.lt_trichotomy (step s) 0) as [Hneg|[Hz|Hpos]]; [|lia|].
  - assert (Hq : (target s f' / inject_Z (step s) <= target s f / inject_Z (step s))%Q).
    { assert (Hi : (/ inject_Z (step s) < 0)%Q).
      { assert (H0 : (0 < / - inject_Z (step s))%Q).
        { apply Qinv_lt_0_compat. change 0%Q with (inject_Z 0).
          rewrite <- inject_Z_opp, <- Zlt_Qlt. lia. }
        assert (E : (/ - inject_Z (step s) == - / inject_Z (step s))%Q)
          by (field; assumption).
        rewrite E in H0. lra. }
      unfold Qdiv.
      setoid_replace (target s f' * / inject_Z (step s))%Q
        with (- target s f' * - / inject_Z (step s))%Q using relation Qeq by ring.
      setoid_replace (target s f * / inject_Z (step s))%Q
        with (- target s f * - / inject_Z (step s))%Q using relation Qeq by ring.
      apply Qmult_le_compat_r; lra. }
    apply round_mono in Hq. nia.
  - assert (Hq : (target s f / inject_Z (step s) <= target s f' / inject_Z (step s))%Q).
    { unfold Qdiv. apply Qmult_le_compat_r; [exact Ht|].
      apply Qlt_le_weak, Qinv_lt_0_compat.
      change 0%Q with (inject_Z 0). rewrite <- Zlt_Qlt. lia. }
    apply round_mono in Hq. nia.
Qed.

Lemma track_fraction_mono (widget_width : Z) (x x' : Q) :
  20 < widget_width → (x <= x')%Q →
  (track_fraction widget_width x <= track_fraction widget_width x')%Q.
Proof.
  intros Hw Hx. unfold track_fraction.
  assert (Hpos : (0 < inject_Z (widget_width - 20))%Q).
  { change 0%Q with (inject_Z 0). rewrite <- Zlt_Qlt. lia. }
  set (w := inject_Z (widget_width - 20)) in *.
  unfold Qdiv. apply Qmult_le_compat_r;
    [|now apply Qlt_le_weak, Qinv_lt_0_compat].
  apply Q.min_le_compat_r. apply Q.max_le_compat_l. lra.
Qed.



Lemma track_fraction_narrow (widget_width : Z) (x : Q) :
  widget_width < 20 → (track_fraction widget_width x == 1)%Q.
Proof.
  intros Hw. unfold track_fraction.
  assert (Hneg : (inject_Z (widget_width - 20) < 0)%Q).
  { change 0%Q with (inject_Z 0). rewrite <- Zlt_Qlt. lia. }
  set (w := inject_Z (widget_width - 20)) in *.
  assert (Hm : (w <= Qmax 0 (x - 10))%Q).
  { apply Qle_trans with 0%Q; [lra|apply Q.le_max_l]. }
  rewrite Q.min_r by exact Hm. field. lra.
Qed.




Lemma update_value_step_0 (s : TLXSlider) (widget_width : Z) (x : Q) :
  step s = 0 → update_value s widget_width x = Raise ZeroDivisionError.
Proof.
  intros Hs. unfold update_value, truediv. rewrite Hs.
  destruct (Qeq_bool (inject_Z (widget_width - 20)) 0); reflexivity.
Qed.


(** X2. On a widget wider than 20 and a range with [min_val ≤ max_val],
    moving the pointer to the right never lowers the stored value. *)
Theorem update_value_monotone
    (s s1 s2 : TLXSlider) (widget_width : Z) (x x' : Q) :
  20 < widget_width →
  min_val s ≤ max_val s →
  (x <= x')%Q →
  update_value s widget_width x = Ok s1 →
  update_value s widget_width x' = Ok s2 →
  value s1 ≤ value s2.
Proof.
  intros Hw Hle Hx H1 H2.
  assert (Hs : step s ≠ 0).
  { intros Hs. rewrite (update_value_step_0 s _ _ Hs) in H1. discriminate. }
  rewrite update_value_ok in H1, H2 by lia.
  injection H1 as <-. injection H2 as <-. cbn [value].
  apply snapped_mono; [done..|]. now apply track_fraction_mono.
Qed.

Lemma update_value_monotone_witness :
  value (mkTLXSlider 0 100 5 15) ≤ value (mkTLXSlider 0 100 5 40).
Proof.
  apply (update_value_monotone TLXSlider_default _ _ 720 (110 # 1) (300 # 1)).
  - lia.
  - cbn. lia.
  - discriminate.
  - vm_compute. reflexivity.
  - vm_compute. reflexivity.
Defined.







(** ** Sessions, continued *)

Lemma track_fraction_unit (widget_width : Z) (x : Q) :
  widget_width ≠ 20 →
  (0 <= track_fraction widget_width x)%Q ∧ (track_fraction widget_width x <= 1)%Q.
Proof.
  intros Hw. destruct (Z.lt_trichotomy widget_width 20) as [Hlt|[?|Hgt]]; [|lia|].
  - rewrite (track_fraction_narrow widget_width x Hlt). split; discriminate.
  - now apply track_fraction_range.
Qed.

Lemma update_value_on_grid (s s' : TLXSlider) (widget_width : Z) (x : Q) :
  on_grid s → update_value s widget_width x = Ok s' → on_grid s'.
Proof.
  intros (Hmin & Hmax & Hstep & _ & _) H.
  assert (Hw : widget_width ≠ 20).
  { intros ->. discriminate H. }
  rewrite update_value_ok in H by lia. injection H as <-.
  destruct (track_fraction_unit widget_width x Hw) as [H0 H1].
  unfold on_grid. cbn [min_val max_val step value].
  repeat split; try done.
  - unfold snapped. rewrite Hstep. apply Z.divide_factor_r.
  - rewrite <- Hmin. apply snapped_in_range; try done; try lia.
    + rewrite Hstep, Hmin. now exists 0.
    + rewrite Hstep, Hmax. now exists 20.
  - rewrite <- Hmax. apply snapped_in_range; try done; try lia.
    + rewrite Hstep, Hmin. now exists 0.
    + rewrite Hstep, Hmax. now exists 20.
Qed.

Lemma mouseEvent_on_grid (st st' : TLXApp) (id : nat) (w : Z) (x : Q) :
  sliders_on_grid st → mouseEvent st id w x = Ok st' → sliders_on_grid st'.
Proof.
  unfold mouseEvent. intros Hall H.
  destruct (pages st !! id) as [p|] eqn:Hp; [|now injection H as <-].
  destruct (slider p) as [s|] eqn:Hs; [|now injection H as <-].
  destruct (update_value s w x) as [s'|e] eqn:Hu; [|discriminate].
  injection H as <-.
  intros i f Hi. destruct (Hall i f Hi) as (q & t & Hq & Ht & Hg).
  unfold page in *. cbn [set_pages pages].
  destruct (decide (id = i)) as [->|Hne].
  - rewrite list_lookup_insert_eq by (now apply lookup_lt_Some in Hq).
    eexists _, s'. split; [reflexivity|]. split; [reflexivity|].
    rewrite Hp in Hq. injection Hq as <-. rewrite Hs in Ht. injection Ht as <-.
    exact (update_value_on_grid _ _ _ _ Hg Hu).
  - rewrite list_lookup_insert_ne by done. eauto.
Qed.

Lemma fresh_app_session_state (uw : bool) : session_state uw (fresh_app uw).
Proof.
  split; [now destruct uw|]. split; [|split].
  - intros i f Hi.
    destruct i as [|[|[|[|[|[|i]]]]]]; [..|discriminate Hi];
      injection Hi as <-; destruct uw; eexists _, _;
      (split; [reflexivity|]); (split; [reflexivity|]);
      (repeat split; try done; try (now exists 10)).
  - destruct uw.
    + change (weights (fresh_app true)
              = dict_of (λ f, Z.of_nat (tally (weighting_rows FACTORS) f)) FACTORS).
      vm_compute. reflexivity.
    + change (weights (fresh_app false) = dict_of (λ _, 0) FACTORS).
      vm_compute. reflexivity.
  - destruct uw; [apply fresh_app_rows_intact|reflexivity].
Qed.

Lemma handle_session_state (uw : bool) (st st' : TLXApp) (ev : event)
    (more : list QMessageBox) :
  session_state uw st → handle st ev = Ok (st', more) → session_state uw st'.
Proof.
  intros (Huw & Hs & Hw & Hr) H.
  assert (Hr' : if uw then rows_intact st' else button_groups st' = None).
  { destruct uw; [exact (handle_rows_intact _ _ _ _ Hr H)|].
    destruct ev as [i j|id w x]; cbn [handle] in H.
    - unfold buttonClicked in H. rewrite Hr in H. now injection H as <- _.
    - destruct (mouseEvent st id w x) as [st1|e] eqn:E; [|discriminate].
      injection H as <- _.
      destruct (mouseEvent_preserves _ _ _ _ _ E) as (_ & _ & -> & _). exact Hr. }
  destruct ev as [i j|id w x]; cbn [handle] in H.
  - unfold buttonClicked in H.
    destruct (button_groups st) as [groups|] eqn:Hg;
      [|injection H as <- _; repeat split; try done;
        unfold weights_tallied; now rewrite Hg].
    destruct (groups !! i) as [g|];
      [|injection H as <- _; repeat split; try done;
        unfold weights_tallied; now rewrite Hg].
    rewrite (update_weights_ok _ (<[i := click g j]> groups)) in H by reflexivity.
    injection H as <- _. repeat split; try done.
  - destruct (mouseEvent st id w x) as [st1|e] eqn:E; [|discriminate].
    injection H as <- _.
    destruct (mouseEvent_preserves _ _ _ _ _ E) as (Eu & Ew & Eg & _).
    repeat split; try done.
    + congruence.
    + exact (mouseEvent_on_grid _ _ _ _ _ Hs E).
    + unfold weights_tallied in *. now rewrite Eg, Ew.
Qed.

Lemma session_state_holds (uw : bool) (evs : list event) (st : TLXApp)
    (shown : list QMessageBox) :
  (st0 ← TLXApp_init uw; run st0 evs) = Ok (st, shown) → session_state uw st.
Proof.
  rewrite TLXApp_init_ok. cbn [mbind result_bind]. intros Hrun.
  apply (run_invariant (session_state uw) (λ _, true))
    with (evs := evs) (st := fresh_app uw) (shown := shown);
    [|done|apply fresh_app_session_state|done].
  intros st1 ev st2 more _. apply handle_session_state.
Qed.

Lemma sample_session_runs (uw : bool) :
  (st0 ← TLXApp_init uw; run st0 sample_session) = Ok (after_sample uw, []).
Proof. destruct uw; vm_compute; reflexivity. Qed.

(** X6. All along a session, whatever the pointer does, every rating
    slider keeps the range 0 to 100 and the step 5, and holds a multiple
    of 5 between 0 and 100. *)
Theorem session_sliders_on_grid (uw : bool) (evs : list event) (st : TLXApp)
    (shown : list QMessageBox) :
  (st0 ← TLXApp_init uw; run st0 evs) = Ok (st, shown) →
  ∀ i factor, FACTORS !! i = Some factor →
    ∃ p s, page st i = Some p ∧ slider p = Some s
           ∧ min_val s = 0 ∧ max_val s = 100 ∧ step s = 5
           ∧ (5 | get_value s) ∧ 0 ≤ get_value s ≤ 100.
Proof.
  intros Hrun. destruct (session_state_holds uw evs st shown Hrun) as (_ & Hs & _).
  exact Hs.
Qed.

Lemma session_sliders_on_grid_witness :
  ∃ p s, page (after_sample true) 0 = Some p ∧ slider p = Some s
         ∧ min_val s = 0 ∧ max_val s = 100 ∧ step s = 5
         ∧ (5 | get_value s) ∧ 0 ≤ get_value s ≤ 100.
Proof.
  apply (session_sliders_on_grid true sample_session (after_sample true) []
           (sample_session_runs true) 0 "Mental Demand").
  reflexivity.
Defined.

Lemma selected_in_labels (g : QButtonGroup) (f : string) :
  selected g = Some f → f ∈ row_labels g.
Proof.
  unfold selected, checkedButton, row_labels. intros H.
  destruct (List.find isChecked (buttons g)) as [b|] eqn:E; [|discriminate].
  injection H as <-. apply find_some in E as [Hb _].
  apply list_elem_of_fmap. exists b. split; [done|]. now apply list_elem_of_In.
Qed.

Lemma filter_length_le {A} (P Q : A → Prop)
    `{∀ x, Decision (P x)} `{∀ x, Decision (Q x)} (l : list A) :
  (∀ x, P x → Q x) → (length (filter P l) ≤ length (filter Q l))%nat.
Proof.
  intros HPQ. induction l as [|x l IH]; [done|].
  rewrite !filter_cons. destruct (decide (P x)) as [HP|HP].
  - rewrite decide_True by auto. cbn. lia.
  - destruct (decide (Q x)); cbn; lia.
Qed.

Lemma filter_length_fmap {A B} (f : A → B) (P : B → Prop)
    `{∀ y, Decision (P y)} (l : list A) :
  length (filter (λ x, P (f x)) l) = length (filter P (f <$> l)).
Proof.
  induction l as [|x l IH]; [done|].
  rewrite fmap_cons, !filter_cons. destruct (decide (P (f x))); cbn; lia.
Qed.

(** A factor is tallied at most once per row that shows it. *)
Lemma tally_le_rows_showing (groups : list QButtonGroup) (f : string) :
  (tally groups f
   ≤ length (filter (λ l, f ∈ l) (row_labels <$> groups)))%nat.
Proof.
  rewrite <- (filter_length_fmap row_labels (λ l, f ∈ l)).
  apply filter_length_le. intros g. apply selected_in_labels.
Qed.

Lemma sum_over_indicator_Some (l : list string) (o : option string) (f : string) :
  NoDup l → f ∈ l → o = Some f →
  sum_over l (λ k, if decide (o = Some k) then 1 else 0) = 1.
Proof.
  unfold sum_over. induction l as [|x l IH]; intros Hnd Hf Ho; [inversion Hf|].
  apply NoDup_cons in Hnd as [Hx Hnd]. cbn [foldr].
  apply elem_of_cons in Hf as [->|Hf].
  - rewrite decide_True by done.
    assert (E : foldr (λ k acc, (if decide (o = Some k) then 1 else 0) + acc) 0 l
                = 0).
    { clear IH Hnd. induction l as [|y l IH]; [reflexivity|]. cbn [foldr].
      apply not_elem_of_cons in Hx as [Hxy Hx].
      rewrite decide_False by congruence. rewrite IH; [lia|done]. }
    lia.
  - rewrite decide_False by (intros ?; apply Hx; congruence).
    rewrite IH by done. lia.
Qed.

Lemma sum_over_indicator_None (l : list string) (o : option string) :
  o = None → sum_over l (λ k, if decide (o = Some k) then 1 else 0) = 0.
Proof.
  intros Ho. unfold sum_over. induction l as [|x l IH]; cbn [foldr]; [done|].
  rewrite decide_False by congruence. now rewrite IH.
Qed.

(** When every selection is one of the factors, the tallies add up to the
    number of answered rows. *)
Lemma tally_total_answered (groups : list QButtonGroup) :
  (∀ g f, g ∈ groups → selected g = Some f → f ∈ FACTORS) →
  sum_over FACTORS (λ f, Z.of_nat (tally groups f)) = Z.of_nat (answered groups).
Proof.
  induction groups as [|g groups IH]; intros Hsel; [reflexivity|].
  assert (E : sum_over FACTORS (λ f, Z.of_nat (tally (g :: groups) f))
              = sum_over FACTORS (λ f, if decide (selected g = Some f) then 1 else 0)
                + sum_over FACTORS (λ f, Z.of_nat (tally groups f))).
  { rewrite <- sum_over_add. unfold sum_over, FACTORS. cbn [foldr].
    rewrite !tally_cons. reflexivity. }
  rewrite E, IH by (intros g' f Hg'; apply Hsel; now right).
  unfold answered. rewrite filter_cons.
  destruct (decide (is_Some (selected g))) as [[f Hg]|Hn].
  - rewrite (sum_over_indicator_Some FACTORS (selected g) f);
      [cbn [length]; lia|apply NoDup_FACTORS| |done].
    apply (Hsel g f); [now left|done].
  - assert (Hg : selected g = None)
      by (destruct (selected g); [exfalso; eauto|done]).
    rewrite (sum_over_indicator_None FACTORS (selected g) Hg). lia.
Qed.

Lemma rows_intact_selection (st : TLXApp) (groups : list QButtonGroup) :
  rows_intact st → button_groups st = Some groups →
  length groups = 15%nat
  ∧ (∀ g f, g ∈ groups → selected g = Some f → f ∈ FACTORS)
  ∧ (∀ f, f ∈ FACTORS → (tally groups f ≤ 5)%nat).
Proof.
  intros (groups' & Hg' & Hl & _) Hg. rewrite Hg in Hg'. injection Hg' as <-.
  split; [|split].
  - apply (f_equal length) in Hl. now rewrite !length_fmap in Hl.
  - intros g f Hin Hsel. apply selected_in_labels in Hsel.
    assert (Hrow : row_labels g ∈ row_labels <$> weighting_rows FACTORS).
    { rewrite <- Hl. now apply list_elem_of_fmap_2. }
    assert (Hall : Forall (Forall (λ f, f ∈ FACTORS))
                     (row_labels <$> weighting_rows FACTORS))
      by (apply (bool_decide_unpack _); vm_compute; exact I).
    rewrite Forall_forall in Hall. specialize (Hall _ Hrow).
    rewrite Forall_forall in Hall. now apply Hall.
  - intros f Hf. etransitivity; [apply tally_le_rows_showing|]. rewrite Hl.
    each_factor Hf; vm_compute; lia.
Qed.

Lemma weights_tallied_values (st : TLXApp) :
  weights_tallied st → ∃ W, weight_values st W ∧ ∀ f, 0 ≤ W f.
Proof.
  unfold weights_tallied. destruct (button_groups st) as [groups|]; intros Hw.
  - exists (λ f, Z.of_nat (tally groups f)). split; [|intros; lia].
    intros f Hf. rewrite Hw.
    now apply (lookup_dict_of (λ f, Z.of_nat (tally groups f))).
  - exists (λ _, 0). split; [|intros; lia].
    intros f Hf. rewrite Hw. now apply (lookup_dict_of (λ _, 0)).
Qed.

Lemma sliders_on_grid_rating_of (st : TLXApp) :
  sliders_on_grid st →
  slider_values st (rating_of st)
  ∧ ∀ f, f ∈ FACTORS → (5 | rating_of st f) ∧ 0 ≤ rating_of st f ≤ 100.
Proof.
  intros Hs.
  assert (Hh : has_sliders st).
  { intros i f Hi. destruct (Hs i f Hi) as (p & s & ? & ? & _). eauto. }
  pose proof (has_sliders_rating_of st Hh) as HR. split; [exact HR|].
  intros f Hf. apply list_elem_of_lookup in Hf as [i Hi].
  destruct (Hs i f Hi) as (p & s & Hp & Hsl & _ & _ & _ & Hd & Hr).
  destruct (HR i f Hi) as (p' & s' & Hp' & Hsl' & Hv).
  rewrite Hp in Hp'. injection Hp' as <-. rewrite Hsl in Hsl'. injection Hsl' as <-.
  rewrite <- Hv. done.
Qed.

(** X7. All along a session with weighting enabled, before the first
    click as after any number of them, the stored weights are the tallies
    of the fifteen rows as they are currently answered: no factor has a
    weight above 5, and the weights add up to the number of answered
    rows. *)
Theorem session_weights (evs : list event) (st : TLXApp)
    (shown : list QMessageBox) :
  (st0 ← TLXApp_init true; run st0 evs) = Ok (st, shown) →
  ∃ groups,
    button_groups st = Some groups
    ∧ length groups = 15%nat
    ∧ (∀ f, f ∈ FACTORS →
         weights st !! f = Some (Z.of_nat (tally groups f))
         ∧ (tally groups f ≤ 5)%nat)
    ∧ Py.sum (values (weights st)) = Z.of_nat (answered groups)
    ∧ (answered groups ≤ 15)%nat.
Proof.
  intros Hrun.
  destruct (session_state_holds true evs st shown Hrun) as (_ & _ & Hw & Hr).
  destruct Hr as (groups & Hg & Hl & Hx).
  assert (Hr : rows_intact st) by (exists groups; done).
  destruct (rows_intact_selection st groups Hr Hg) as (Hlen & Hsel & H5).
  unfold weights_tallied in Hw. rewrite Hg in Hw.
  exists groups. split; [done|]. split; [done|]. split; [|split].
  - intros f Hf. split; [|now apply H5]. rewrite Hw.
    now apply (lookup_dict_of (λ f, Z.of_nat (tally groups f))).
  - rewrite Hw, sum_values_dict_of by apply NoDup_FACTORS.
    now apply tally_total_answered.
  - rewrite <- Hlen. apply length_filter.
Qed.

Lemma session_weights_witness :
  ∃ groups,
    button_groups (after_sample true) = Some groups
    ∧ length groups = 15%nat
    ∧ (∀ f, f ∈ FACTORS →
         weights (after_sample true) !! f = Some (Z.of_nat (tally groups f))
         ∧ (tally groups f ≤ 5)%nat)
    ∧ Py.sum (values (weights (after_sample true))) = Z.of_nat (answered groups)
    ∧ (answered groups ≤ 15)%nat.
Proof.
  apply (session_weights sample_session (after_sample true) []).
  apply (sample_session_runs true).
Defined.

(** X8. At the end of any session, enabled weighting or not, Finish
    raises nothing as long as the JSON log is absent or holds an array:
    the record goes to the end of both logs, and in the application only
    [ratings] changes. *)
Theorem session_finish_succeeds (uw : bool) (evs : list event) (st : TLXApp)
    (shown : list QMessageBox) (now : string) (fs : data_dir)
    (records : list pyval) :
  (st0 ← TLXApp_init uw; run st0 evs) = Ok (st, shown) →
  json_log fs records →
  ∃ st' fs' rd,
    save_results st now fs = Ok (st', fs')
    ∧ build_result st now = Ok (st', rd)
    ∧ st' = set_ratings st (rd_ratings rd)
    ∧ json_file fs' = Some (JsonOf (PyList (records ++ [py_of_result rd])))
    ∧ ∃ rows, csv_file fs' = Some (rows ++ [csv_row uw rd]).
Proof.
  intros Hrun Hj.
  destruct (session_state_holds uw evs st shown Hrun) as (Huw & Hs & Hw & _).
  destruct (sliders_on_grid_rating_of st Hs) as [HR _].
  destruct (weights_tallied_values st Hw) as (W & HW & _).
  assert (Hb : ∃ st' rd, build_result st now = Ok (st', rd)
                         ∧ st' = set_ratings st (rd_ratings rd)).
  { destruct uw.
    - eexists _, _. split;
        [exact (build_result_weighted st _ W now Huw HR HW)|reflexivity].
    - eexists _, _. split;
        [exact (build_result_unweighted st _ now Huw HR)|reflexivity]. }
  destruct Hb as (st' & rd & Hb & Hst).
  destruct (save_results_persists st st' rd now fs records Hb Hj)
    as (fs' & Hsave & Hjson & Hcsv).
  exists st', fs', rd. repeat split; try done.
  rewrite Hst in Hcsv. cbn [set_ratings use_weighting] in Hcsv.
  now rewrite Huw in Hcsv.
Qed.

Lemma session_finish_succeeds_witness :
  ∃ st' fs' rd,
    save_results (after_sample true) "2025-01-01T09:00:00" (mkDataDir None None)
    = Ok (st', fs')
    ∧ build_result (after_sample true) "2025-01-01T09:00:00" = Ok (st', rd)
    ∧ st' = set_ratings (after_sample true) (rd_ratings rd)
    ∧ json_file fs' = Some (JsonOf (PyList ([] ++ [py_of_result rd])))
    ∧ ∃ rows, csv_file fs' = Some (rows ++ [csv_row true rd]).
Proof.
  apply (session_finish_succeeds true sample_session (after_sample true) []).
  - apply (sample_session_runs true).
  - left. split; reflexivity.
Defined.

Lemma weighted_sum_bounds (l : list string) (R W : string → Z) :
  (∀ f, f ∈ l → 0 ≤ R f ≤ 100) → (∀ f, 0 ≤ W f) →
  0 ≤ sum_over l (λ f, R f * W f) ≤ 100 * sum_over l W.
Proof.
  intros HR HW. unfold sum_over.
  induction l as [|x l IH]; cbn [foldr]; [lia|].
  assert (0 ≤ R x ≤ 100) by (apply HR; now left).
  specialize (HW x).
  assert (IH' := IH (λ f Hf, HR f (list_elem_of_further _ _ _ Hf))).
  nia.
Qed.

Lemma plain_sum_bounds (l : list string) (R : string → Z) :
  (∀ f, f ∈ l → 0 ≤ R f ≤ 100) →
  0 ≤ sum_over l R ≤ 100 * Z.of_nat (length l).
Proof.
  intros HR. unfold sum_over.
  induction l as [|x l IH]; cbn [foldr length]; [lia|].
  assert (0 ≤ R x ≤ 100) by (apply HR; now left).
  assert (IH' := IH (λ f Hf, HR f (list_elem_of_further _ _ _ Hf))).
  lia.
Qed.

Lemma score_in_range (n d : Z) :
  0 < d → 0 ≤ n ≤ 100 * d →
  (0 <= inject_Z n / inject_Z d)%Q ∧ (inject_Z n / inject_Z d <= 100)%Q.
Proof.
  intros Hd Hn.
  assert (Hq : (0 < inject_Z d)%Q)
    by (change 0%Q with (inject_Z 0); rewrite <- Zlt_Qlt; lia).
  split.
  - apply Qle_shift_div_l; [done|]. rewrite Qmult_0_l.
    change 0%Q with (inject_Z 0). rewrite <- Zle_Qle. lia.
  - apply Qle_shift_div_r; [done|].
    change 100%Q with (inject_Z 100). rewrite <- inject_Z_mult, <- Zle_Qle. lia.
Qed.

(** X9. At the end of any session, enabled weighting or not, the
    [weighted_rating] that Finish computes lies between 0 and 100. *)
Theorem session_score_bounds (uw : bool) (evs : list event) (st : TLXApp)
    (shown : list QMessageBox) (now : string) :
  (st0 ← TLXApp_init uw; run st0 evs) = Ok (st, shown) →
  ∃ st' rd,
    build_result st now = Ok (st', rd)
    ∧ (0 <= weighted_rating rd)%Q ∧ (weighted_rating rd <= 100)%Q.
Proof.
  intros Hrun.
  destruct (session_state_holds uw evs st shown Hrun) as (Huw & Hs & Hw & Hr).
  destruct (sliders_on_grid_rating_of st Hs) as [HR Hb].
  destruct uw.
  - destruct Hr as (groups & Hg & Hl & Hx).
    assert (Hr : rows_intact st) by (exists groups; done).
    destruct (rows_intact_selection st groups Hr Hg) as (Hlen & _ & _).
    unfold weights_tallied in Hw. rewrite Hg in Hw.
    eexists _, _. split.
    { apply (build_result_weighted st _ (λ f, Z.of_nat (tally groups f)) now Huw HR).
      intros f Hf. rewrite Hw.
      now apply (lookup_dict_of (λ f, Z.of_nat (tally groups f))). }
    cbn [weighted_rating]. apply (score_in_range _ 15); [lia|].
    pose proof (weighted_sum_bounds FACTORS (rating_of st)
                  (λ f, Z.of_nat (tally groups f))
                  (λ f Hf, proj2 (Hb f Hf)) (λ f, Nat2Z.is_nonneg _)) as Hsum.
    pose proof (tally_total_le_rows groups) as Htot. rewrite Hlen in Htot. lia.
  - eexists _, _. split; [exact (build_result_unweighted st _ now Huw HR)|].
    cbn [weighted_rating]. apply (score_in_range _ 6); [lia|].
    pose proof (plain_sum_bounds FACTORS (rating_of st)
                  (λ f Hf, proj2 (Hb f Hf))) as Hsum.
    cbn [length FACTORS] in Hsum. lia.
Qed.

Lemma session_score_bounds_witness :
  ∃ st' rd,
    build_result (after_sample true) "2025-01-01T09:00:00" = Ok (st', rd)
    ∧ (0 <= weighted_rating rd)%Q ∧ (weighted_rating rd <= 100)%Q.
Proof.
  apply (session_score_bounds true sample_session (after_sample true) []).
  apply (sample_session_runs true).
Defined.

Lemma session_never_warns_witness :
  @nil QMessageBox = [].
Proof.
  apply (session_never_warns sample_session (after_sample true) []).
  apply (sample_session_runs true).
Defined.

(** ** The two logs, continued *)




(** X12. A Finish in one weighting mode on a CSV log whose header was
    written in the other mode leaves the header as it is and adds a row
    that does not have the header's length: 8 cells under a header of 14,
    or 14 under a header of 8. *)
Theorem save_to_files_mixed_modes (st : TLXApp) (rd : result_data)
    (fs : data_dir) (records : list pyval) (rows : list (list cell)) :
  json_log fs records →
  csv_file fs = Some (csv_header (negb (use_weighting st)) :: rows) →
  ∃ fs' row,
    save_to_files st rd fs = Ok fs'
    ∧ csv_file fs' = Some (csv_header (negb (use_weighting st)) :: rows ++ [row])
    ∧ length row = (if use_weighting st then 14 else 8)%nat
    ∧ length (csv_header (negb (use_weighting st)))
      = (if use_weighting st then 8 else 14)%nat.
Proof.
  intros Hj Hc. eexists _, (csv_row (use_weighting st) rd).
  split; [exact (save_to_files_ok st rd fs records Hj)|].
  cbn [csv_file]. rewrite Hc. split; [done|].
  now destruct (use_weighting st).
Qed.

Lemma save_to_files_mixed_modes_witness :
  let rd := mkResult "2025-01-01T09:00:00" (dict_of (λ _, 50) FACTORS) ∅ ∅ 50 in
  ∃ fs' row,
    save_to_files (fresh_app false) rd
      (mkDataDir None (Some [csv_header true])) = Ok fs'
    ∧ csv_file fs'
      = Some (csv_header (negb (use_weighting (fresh_app false))) :: [] ++ [row])
    ∧ length row = (if use_weighting (fresh_app false) then 14 else 8)%nat
    ∧ length (csv_header (negb (use_weighting (fresh_app false))))
      = (if use_weighting (fresh_app false) then 8 else 14)%nat.
Proof.
  intros rd.
  apply (save_to_files_mixed_modes (fresh_app false) rd
           (mkDataDir None (Some [csv_header true])) [] []).
  - left. split; reflexivity.
  - reflexivity.
Defined.

Lemma save_all_appends_any (runs : list (TLXApp * result_data))
    (fs : data_dir) (records : list pyval) (rows : list (list cell)) :
  json_log fs records → csv_file fs = Some rows →
  ∃ fs', save_all runs fs = Ok fs'
         ∧ json_log fs' (records ++ (py_of_result ∘ snd <$> runs))
         ∧ csv_file fs'
           = Some (rows ++ ((λ p, csv_row (use_weighting p.1) p.2) <$> runs)).
Proof.
  revert fs records rows. induction runs as [|[st rd] runs IH];
    intros fs records rows Hj Hc.
  - exists fs. cbn. rewrite !app_nil_r. repeat split; [exact Hj|exact Hc].
  - rewrite (save_all_cons (st, rd) runs fs _ (save_to_files_ok st rd fs records Hj)).
    rewrite Hc.
    destruct (IH (mkDataDir
                    (Some (JsonOf (PyList (records ++ [py_of_result rd]))))
                    (Some (rows ++ [csv_row (use_weighting st) rd])))
                 (records ++ [py_of_result rd])
                 (rows ++ [csv_row (use_weighting st) rd]))
      as (fs' & Hs & Hj' & Hc').
    + right. reflexivity.
    + reflexivity.
    + exists fs'. split; [exact Hs|].
      rewrite !fmap_cons. cbn [compose snd fst].
      rewrite <- !app_assoc in Hj', Hc'. now split.
Qed.

(** X13. Any number N ≥ 1 of Finish clicks on an empty data directory,
    in whatever weighting modes, leaves a JSON array of N records and a
    CSV log of one header row and N data rows, and the k-th record and the
    k-th data row come from the k-th Finish. *)
Theorem logs_stay_in_step (runs : list (TLXApp * result_data)) (fs : data_dir) :
  runs ≠ [] →
  json_file fs = None →
  csv_file fs = None →
  ∃ fs' recs header rows,
    save_all runs fs = Ok fs'
    ∧ json_file fs' = Some (JsonOf (PyList recs))
    ∧ csv_file fs' = Some (header :: rows)
    ∧ length recs = length runs
    ∧ length rows = length runs
    ∧ ∀ k st rd, runs !! k = Some (st, rd) →
        recs !! k = Some (py_of_result rd)
        ∧ rows !! k = Some (csv_row (use_weighting st) rd).
Proof.
  intros Hne Hj Hc. destruct runs as [|[st rd] runs]; [done|].
  assert (Hlog : json_log fs []) by (left; done).
  rewrite (save_all_cons (st, rd) runs fs _ (save_to_files_ok st rd fs [] Hlog)).
  rewrite Hc.
  destruct (save_all_appends_any runs
              (mkDataDir (Some (JsonOf (PyList ([] ++ [py_of_result rd]))))
                 (Some [csv_header (use_weighting st); csv_row (use_weighting st) rd]))
              [py_of_result rd]
              [csv_header (use_weighting st); csv_row (use_weighting st) rd])
    as (fs' & Hs & Hj' & Hc').
  { right. reflexivity. }
  { reflexivity. }
  destruct Hj' as [[_ Hnil]|Hj']; [discriminate Hnil|].
  exists fs', (py_of_result ∘ snd <$> (st, rd) :: runs),
    (csv_header (use_weighting st)),
    ((λ p, csv_row (use_weighting p.1) p.2) <$> (st, rd) :: runs).
  split; [exact Hs|]. split; [exact Hj'|]. split; [exact Hc'|].
  split; [now rewrite length_fmap|]. split; [now rewrite length_fmap|].
  intros k st' rd' Hk. rewrite !list_lookup_fmap, Hk. done.
Qed.

Lemma logs_stay_in_step_witness :
  let rd := mkResult "2025-01-01T09:00:00" (dict_of (λ _, 50) FACTORS) ∅ ∅ 50 in
  let runs := [(fresh_app false, rd); (fresh_app true, rd)] in
  ∃ fs' recs header rows,
    save_all runs (mkDataDir None None) = Ok fs'
    ∧ json_file fs' = Some (JsonOf (PyList recs))
    ∧ csv_file fs' = Some (header :: rows)
    ∧ length recs = length runs
    ∧ length rows = length runs
    ∧ ∀ k st rd, runs !! k = Some (st, rd) →
        recs !! k = Some (py_of_result rd)
        ∧ rows !! k = Some (csv_row (use_weighting st) rd).
Proof.
  intros rd runs. apply (logs_stay_in_step runs (mkDataDir None None)).
  - discriminate.
  - reflexivity.
  - reflexivity.
Defined.

(** ** Finish, continued *)

Section DictCompOutcomes.
Context {V : Type}.
Variable f : string → result V.

Lemma dict_comp_raised (e : exn) (keys : list string) :
  foldl (λ acc k, d ← acc; v ← f k; Ok (<[k := v]> d))
        (@Raise (gmap string V) e) keys
  = Raise e.
Proof. induction keys as [|k keys IH]; [done|exact IH]. Qed.

(** A comprehension either succeeds, every key having a value, or raises
    what [f] raises at one of the keys. *)
Lemma dict_comp_from_cases (keys : list string) (d : gmap string V) :
  (∃ d', foldl (λ acc k, d ← acc; v ← f k; Ok (<[k := v]> d)) (Ok d) keys = Ok d'
         ∧ ∀ k, k ∈ keys → ∃ v, f k = Ok v)
  ∨ (∃ k e, k ∈ keys ∧ f k = Raise e
            ∧ foldl (λ acc k, d ← acc; v ← f k; Ok (<[k := v]> d)) (Ok d) keys
              = Raise e).
Proof.
  revert d. induction keys as [|k keys IH]; intros d.
  - left. exists d. split; [done|]. intros k Hk. inversion Hk.
  - cbn [foldl]. cbn [mbind result_bind]. destruct (f k) as [v|e] eqn:Hk.
    + cbn [mbind result_bind].
      destruct (IH (<[k := v]> d)) as [(d' & Hd & Hall)|(k' & e & Hin & He & Hr)].
      * left. exists d'. split; [done|].
        intros k' [->|Hk']%elem_of_cons; eauto.
      * right. exists k', e. split; [now right|done].
    + right. exists k, e. split; [now left|]. split; [done|].
      cbn [mbind result_bind]. apply dict_comp_raised.
Qed.

Lemma dict_comp_cases (keys : list string) :
  (∃ d, dict_comp f keys = Ok d ∧ ∀ k, k ∈ keys → ∃ v, f k = Ok v)
  ∨ (∃ k e, k ∈ keys ∧ f k = Raise e ∧ dict_comp f keys = Raise e).
Proof. apply dict_comp_from_cases. Qed.

End DictCompOutcomes.

Lemma read_slider_Ok (st : TLXApp) (i : nat) (f : string) (v : Z) :
  FACTORS !! i = Some f → read_slider st f = Ok v →
  ∃ p s, page st i = Some p ∧ slider p = Some s.
Proof.
  intros Hi. unfold read_slider.
  rewrite (index_NoDup _ _ _ NoDup_FACTORS Hi). cbn [mbind result_bind].
  destruct (page st i) as [p|]; [|discriminate]. cbn [or_raise mbind result_bind].
  destruct (slider p) as [s|] eqn:Hs; [|discriminate].
  intros _. exists p, s. done.
Qed.

Lemma read_slider_Raise (st : TLXApp) (f : string) (e : exn) :
  f ∈ FACTORS → read_slider st f = Raise e → e = AttributeError "slider".
Proof.
  intros Hf. unfold read_slider.
  destruct (index_lookup _ _ Hf) as (i & -> & _). cbn [mbind result_bind].
  destruct (page st i) as [p|]; [|now intros [= <-]].
  cbn [or_raise mbind result_bind].
  destruct (slider p) as [s|]; [discriminate|now intros [= <-]].
Qed.

Lemma build_result_unfold (st : TLXApp) (now : string) :
  build_result st now =
  (r ← dict_comp (read_slider st) FACTORS;
   let st := set_ratings st r in
   adjusted ← (if use_weighting st
               then dict_comp (λ factor,
                      a ← getitem (ratings st) factor;
                      b ← getitem (weights st) factor;
                      Ok (a * b)) FACTORS
               else Ok ∅);
   weighted ← (if use_weighting st
               then truediv (inject_Z (Py.sum (values adjusted))) (inject_Z 15)
               else truediv (inject_Z (Py.sum (values (ratings st))))
                            (inject_Z (Z.of_nat (length FACTORS))));
   Ok (st,
       {| timestamp := now;
          rd_ratings := ratings st;
          rd_weights := if use_weighting st then weights st else ∅;
          adjusted_ratings := if use_weighting st then adjusted else ∅;
          weighted_rating := weighted |})).
Proof. reflexivity. Qed.

Lemma build_result_Ok_inv (st st' : TLXApp) (rd : result_data) (now : string) :
  build_result st now = Ok (st', rd) →
  has_sliders st
  ∧ (use_weighting st = true → ∀ f, f ∈ FACTORS → is_Some (weights st !! f)).
Proof.
  rewrite build_result_unfold. intros H.
  destruct (dict_comp_cases (read_slider st) FACTORS)
    as [(r & Hr & Hall)|(k & e & _ & _ & Hr)];
    rewrite Hr in H; [|discriminate].
  cbn [mbind result_bind] in H. split.
  - intros i f Hi.
    destruct (Hall f) as [v Hv]; [apply list_elem_of_lookup; eauto|].
    exact (read_slider_Ok st i f v Hi Hv).
  - intros Huw f Hf. cbn [use_weighting set_ratings ratings weights] in H.
    rewrite Huw in H.
    match type of H with
    | context [dict_comp ?g FACTORS] =>
        destruct (dict_comp_cases g FACTORS)
          as [(a & Ha & Hall')|(k & e & _ & _ & Ha)]
    end; rewrite Ha in H; [|discriminate].
    destruct (Hall' f Hf) as [v Hv].
    destruct (getitem r f); [|discriminate]. cbn [mbind result_bind] in Hv.
    unfold getitem in Hv. destruct (weights st !! f); [eauto|discriminate].
Qed.

Lemma build_result_Ok (st : TLXApp) (now : string) :
  has_sliders st →
  (use_weighting st = true → ∀ f, f ∈ FACTORS → is_Some (weights st !! f)) →
  ∃ rd, build_result st now
        = Ok (set_ratings st (dict_of (rating_of st) FACTORS), rd)
        ∧ rd_ratings rd = dict_of (rating_of st) FACTORS
        ∧ timestamp rd = now
        ∧ ∀ now', build_result (set_ratings st (dict_of (rating_of st) FACTORS)) now'
                  = Ok (set_ratings st (dict_of (rating_of st) FACTORS),
                        mkResult now' (rd_ratings rd) (rd_weights rd)
                          (adjusted_ratings rd) (weighted_rating rd)).
Proof.
  intros Hs Hw. pose proof (has_sliders_rating_of st Hs) as HR.
  set (r := dict_of (rating_of st) FACTORS).
  assert (HR' : slider_values (set_ratings st r) (rating_of st)) by exact HR.
  destruct (use_weighting st) eqn:Huw.
  - set (W := λ f, default 0 (weights st !! f)).
    assert (HW : weight_values st W).
    { intros f Hf. unfold W. destruct (Hw eq_refl f Hf) as [v ->]. done. }
    eexists. split; [exact (build_result_weighted st _ W now Huw HR HW)|].
    split; [done|]. split; [done|]. intros now'.
    exact (build_result_weighted (set_ratings st r) _ W now' Huw HR' HW).
  - eexists. split; [exact (build_result_unweighted st _ now Huw HR)|].
    split; [done|]. split; [done|]. intros now'.
    exact (build_result_unweighted (set_ratings st r) _ now' Huw HR').
Qed.

(** X14. The first part of Finish succeeds exactly when every factor's
    page is there with its slider and, under weighting, every factor has
    a weight. A missing page or slider makes it raise [AttributeError];
    with the sliders in place and weighting enabled, a factor without a
    weight makes it raise [KeyError] for a factor that has none. *)
Theorem build_result_outcomes (st : TLXApp) (now : string) :
  ((∃ st' rd, build_result st now = Ok (st', rd))
   ↔ has_sliders st
     ∧ (use_weighting st = true → ∀ f, f ∈ FACTORS → is_Some (weights st !! f)))
  ∧ ((∃ i f, FACTORS !! i = Some f
             ∧ (page st i = None ∨ ∃ p, page st i = Some p ∧ slider p = None)) →
     build_result st now = Raise (AttributeError "slider"))
  ∧ (has_sliders st → use_weighting st = true →
     (∃ f, f ∈ FACTORS ∧ weights st !! f = None) →
     ∃ f, f ∈ FACTORS ∧ weights st !! f = None
          ∧ build_result st now = Raise (KeyError f)).
Proof.
  split; [|split].
  - split.
    + intros (st' & rd & H). exact (build_result_Ok_inv st st' rd now H).
    + intros [Hs Hw]. destruct (build_result_Ok st now Hs Hw) as (rd & H & _).
      eauto.
  - intros (i & f & Hi & Hmiss). rewrite build_result_unfold.
    destruct (dict_comp_cases (read_slider st) FACTORS)
      as [(r & _ & Hall)|(k & e & Hk & He & ->)].
    + exfalso. destruct (Hall f) as [v Hv]; [apply list_elem_of_lookup; eauto|].
      destruct (read_slider_Ok st i f v Hi Hv) as (p & s & Hp & Hs).
      destruct Hmiss as [Hn|(p' & Hp' & Hn)]; congruence.
    + now rewrite (read_slider_Raise st k e Hk He).
  - intros Hs Huw (f & Hf & Hnone). rewrite build_result_unfold.
    pose proof (ratings_comprehension st _ (has_sliders_rating_of st Hs)) as E.
    change (dict_comp (read_slider st) FACTORS
            = Ok (dict_of (rating_of st) FACTORS)) in E.
    rewrite E. clear E.
    cbn [mbind result_bind]. cbn [use_weighting set_ratings ratings weights].
    rewrite Huw.
    match goal with
    | |- context [dict_comp ?g FACTORS] =>
        destruct (dict_comp_cases g FACTORS)
          as [(a & _ & Hall)|(k & e & Hk & He & ->)]
    end.
    + exfalso. destruct (Hall f Hf) as [v Hv].
      unfold getitem in Hv. rewrite Hnone in Hv.
      destruct (dict_of (rating_of st) FACTORS !! f); discriminate.
    + exists k. split; [done|].
      unfold getitem in He. rewrite (lookup_dict_of _ _ _ Hk) in He.
      cbn [or_raise mbind result_bind] in He.
      destruct (weights st !! k); [discriminate|].
      injection He as <-. done.
Qed.

(** X15. Finish changes nothing it reads: a second Finish right after a
    successful one succeeds too, leaves the application as the first one
    left it, and builds the same record but for the timestamp. *)
Theorem build_result_again (st st' : TLXApp) (rd : result_data) (now now' : string) :
  build_result st now = Ok (st', rd) →
  build_result st' now'
  = Ok (st', mkResult now' (rd_ratings rd) (rd_weights rd)
               (adjusted_ratings rd) (weighted_rating rd))
  ∧ st' = set_ratings st (rd_ratings rd)
  ∧ timestamp rd = now.
Proof.
  intros H. destruct (build_result_Ok_inv st st' rd now H) as [Hs Hw].
  destruct (build_result_Ok st now Hs Hw) as (rd0 & H0 & Hr & Ht & Hagain).
  rewrite H0 in H. injection H as <- <-.
  split; [apply Hagain|]. now rewrite Hr.
Qed.

Lemma build_result_again_witness :
  ∃ st' rd,
    build_result (fresh_app true) "2025-01-01T09:00:00" = Ok (st', rd)
    ∧ build_result st' "2025-01-01T09:05:00"
      = Ok (st', mkResult "2025-01-01T09:05:00" (rd_ratings rd) (rd_weights rd)
                   (adjusted_ratings rd) (weighted_rating rd))
    ∧ st' = set_ratings (fresh_app true) (rd_ratings rd)
    ∧ timestamp rd = "2025-01-01T09:00:00".
Proof.
  eexists _, _. split.
  - exact (build_result_weighted (fresh_app true) _ _ "2025-01-01T09:00:00"
             eq_refl (fresh_app_sliders true) (fresh_app_weights true)).
  - apply (build_result_again (fresh_app true)).
    exact (build_result_weighted (fresh_app true) _ _ "2025-01-01T09:00:00"
             eq_refl (fresh_app_sliders true) (fresh_app_weights true)).
Defined.

(** X16. [create_rating_page] succeeds exactly for the six factors, with
    a page titled after the factor that holds a 0/100/5 slider at 50 and
    the end labels Good and Poor for Performance, Low and High for the
    others; for any other name it raises [KeyError]. *)
Theorem create_rating_page_outcomes (factor : string) :
  (factor ∈ FACTORS →
   ∃ definition,
     DEFINITIONS !! factor = Some definition
     ∧ create_rating_page factor
       = Ok (mkPage ("Rate: " +:+ factor)
               [QLabel definition; SliderWidget;
                QLabel (if decide (factor = "Performance") then "Good" else "Low");
                QLabel (if decide (factor = "Performance") then "Poor" else "High")]
               (Some (mkTLXSlider 0 100 5 50))))
  ∧ (factor ∉ FACTORS → create_rating_page factor = Raise (KeyError factor)).
Proof.
  split.
  - intros Hf. each_factor Hf; eexists; split; reflexivity.
  - intros Hf. unfold create_rating_page, getitem.
    assert (E : DEFINITIONS !! factor = None).
    { apply not_elem_of_list_to_map_1. exact Hf. }
    now rewrite E.
Qed.

(** ** Painting the slider *)

Lemma floordiv_ok (a b : Z) : b ≠ 0 → floordiv a b = Ok (a / b).
Proof. intros Hb. unfold floordiv. now rewrite decide_False. Qed.

Lemma paintEvent_ok (s : TLXSlider) (width height : Z) :
  step s ≠ 0 → (max_val s - min_val s) / step s ≠ 0 →
  paintEvent s width height =
  Ok ([mkLine (mkPen black 2) 10 (height / 2) (width - 10) (height / 2)]
      ++ (tick (height / 2) ∘ tick_x s width
          <$> seqZ 0 ((max_val s - min_val s) / step s + 1))
      ++ [mkLine (mkPen red 4) (int (handle_x s width)) (height / 2 - 15)
                 (int (handle_x s width)) (height / 2 + 15)]).
Proof.
  intros Hs Hn. unfold paintEvent. rewrite floordiv_ok by done.
  cbn [mbind result_bind].
  rewrite (truediv_ok _ (inject_Z ((max_val s - min_val s) / step s)))
    by (now apply inject_Z_nonzero).
  cbn [mbind result_bind].
  rewrite (truediv_ok _ (inject_Z (max_val s - min_val s))).
  - reflexivity.
  - apply inject_Z_nonzero. intros E. apply Hn. rewrite E. now apply Z.div_0_l.
Qed.


Lemma int_floor (q : Q) : (0 <= q)%Q → int q = Qfloor q.
Proof.
  destruct q as [n d]. unfold Qle, int, Qfloor. cbn. intros Hn.
  apply Z.quot_div_nonneg; lia.
Qed.

Lemma int_bounds (a b : Z) (q : Q) :
  0 ≤ a → (inject_Z a <= q)%Q → (q <= inject_Z b)%Q → a ≤ int q ≤ b.
Proof.
  intros Ha Hlo Hhi.
  assert (H0 : (0 <= q)%Q).
  { apply Qle_trans with (inject_Z a); [|done].
    change 0%Q with (inject_Z 0). now rewrite <- Zle_Qle. }
  rewrite (int_floor q H0). split.
  - rewrite <- (Qfloor_Z a). now apply Qfloor_resp_le.
  - rewrite <- (Qfloor_Z b). now apply Qfloor_resp_le.
Qed.


Lemma int_exact (a : Z) (q : Q) : 0 ≤ a → (q == inject_Z a)%Q → int q = a.
Proof.
  intros Ha E.
  assert (H : a ≤ int q ≤ a)
    by (apply int_bounds; [done|rewrite E; apply Qle_refl..]).
  lia.
Qed.





(** X19. For a slider with [0 < step ≤ max_val - min_val] whose value is
    inside its range, on a widget at least 20 wide, the handle is the
    last line drawn, in red, vertical, 30 high, and on the axis: its
    abscissa is between 10 and the width minus 10, exactly 10 when the
    value is [min_val] and exactly the width minus 10 when it is
    [max_val]. *)
Theorem paintEvent_handle (s : TLXSlider) (width height : Z) :
  0 < step s →
  step s ≤ max_val s - min_val s →
  min_val s ≤ value s ≤ max_val s →
  20 ≤ width →
  ∃ lines handle,
    paintEvent s width height = Ok (lines ++ [handle])
    ∧ pen handle = mkPen red 4
    ∧ x1 handle = x2 handle
    ∧ y1 handle = height / 2 - 15 ∧ y2 handle = height / 2 + 15
    ∧ 10 ≤ x1 handle ≤ width - 10
    ∧ (value s = min_val s → x1 handle = 10)
    ∧ (value s = max_val s → x1 handle = width - 10).
Proof.
  intros Hs Hr Hv Hw.
  assert (Hn : 0 < (max_val s - min_val s) / step s)
    by (apply Z.div_str_pos; lia).
  eexists (_ :: _), _. split.
  { rewrite paintEvent_ok by lia. cbn [app]. reflexivity. }
  cbn [pen x1 x2 y1 y2].
  assert (Hd : (0 < inject_Z (max_val s - min_val s))%Q)
    by (change 0%Q with (inject_Z 0); rewrite <- Zlt_Qlt; lia).
  assert (Hwq : (0 <= inject_Z (width - 20))%Q)
    by (change 0%Q with (inject_Z 0); rewrite <- Zle_Qle; lia).
  assert (Ew : (inject_Z (width - 10) == 10 + inject_Z (width - 20))%Q).
  { replace (width - 10) with (10 + (width - 20)) by lia.
    now rewrite inject_Z_plus. }
  assert (Hf0 : (0 <= inject_Z (value s - min_val s)
                      / inject_Z (max_val s - min_val s))%Q).
  { apply Qle_shift_div_l; [done|]. rewrite Qmult_0_l.
    change 0%Q with (inject_Z 0). rewrite <- Zle_Qle. lia. }
  assert (Hf1 : (inject_Z (value s - min_val s)
                 / inject_Z (max_val s - min_val s) <= 1)%Q).
  { apply Qle_shift_div_r; [done|]. rewrite Qmult_1_l, <- Zle_Qle. lia. }
  repeat split; try done.
  - apply (int_bounds 10 (width - 10)); [lia| |].
    + unfold handle_x. change (inject_Z 10) with 10%Q.
      assert (0 <= inject_Z (value s - min_val s)
                   / inject_Z (max_val s - min_val s)
                   * inject_Z (width - 20))%Q by now apply Qmult_le_0_compat.
      lra.
    + unfold handle_x. rewrite Ew.
      assert (inject_Z (value s - min_val s) / inject_Z (max_val s - min_val s)
              * inject_Z (width - 20) <= 1 * inject_Z (width - 20))%Q
        by now apply Qmult_le_compat_r.
      lra.
  - apply (int_bounds 10 (width - 10)); [lia| |].
    + unfold handle_x. change (inject_Z 10) with 10%Q.
      assert (0 <= inject_Z (value s - min_val s)
                   / inject_Z (max_val s - min_val s)
                   * inject_Z (width - 20))%Q by now apply Qmult_le_0_compat.
      lra.
    + unfold handle_x. rewrite Ew.
      assert (inject_Z (value s - min_val s) / inject_Z (max_val s - min_val s)
              * inject_Z (width - 20) <= 1 * inject_Z (width - 20))%Q
        by now apply Qmult_le_compat_r.
      lra.
  - intros E. apply int_exact; [lia|]. unfold handle_x.
    rewrite E, Z.sub_diag. change (inject_Z 0) with 0%Q. field. lra.
  - intros E. apply int_exact; [lia|]. unfold handle_x.
    rewrite E, Ew. field. lra.
Qed.

Lemma paintEvent_handle_witness :
  ∃ lines handle,
    paintEvent TLXSlider_default 720 100 = Ok (lines ++ [handle])
    ∧ pen handle = mkPen red 4
    ∧ x1 handle = x2 handle
    ∧ y1 handle = 100 / 2 - 15 ∧ y2 handle = 100 / 2 + 15
    ∧ 10 ≤ x1 handle ≤ 720 - 10
    ∧ (value TLXSlider_default = min_val TLXSlider_default → x1 handle = 10)
    ∧ (value TLXSlider_default = max_val TLXSlider_default →
       x1 handle = 720 - 10).
Proof.
  apply (paintEvent_handle TLXSlider_default 720 100).
  - cbn. lia.
  - cbn. lia.
  - cbn. lia.
  - lia.
Defined.

(** X21. All along a session, painting the slider of any factor's page
    raises nothing, whatever the width and the height of the widget, and
    draws 23 lines: the axis, 21 ticks and the handle. *)
Theorem session_paint_succeeds (uw : bool) (evs : list event) (st : TLXApp)
    (shown : list QMessageBox) (i : nat) (factor : string) (width height : Z) :
  (st0 ← TLXApp_init uw; run st0 evs) = Ok (st, shown) →
  FACTORS !! i = Some factor →
  ∃ p s lines,
    page st i = Some p ∧ slider p = Some s
    ∧ paintEvent s width height = Ok lines
    ∧ length lines = 23%nat.
Proof.
  intros Hrun Hi.
  destruct (session_state_holds uw evs st shown Hrun) as (_ & Hs & _).
  destruct (Hs i factor Hi) as (p & s & Hp & Hsl & Hmin & Hmax & Hstep & _).
  exists p, s. eexists. split; [done|]. split; [done|].
  assert (Hn : (max_val s - min_val s) / step s = 20)
    by (rewrite Hmin, Hmax, Hstep; reflexivity).
  split; [apply paintEvent_ok; lia|].
  rewrite !length_app, length_fmap, length_seqZ, Hn. reflexivity.
Qed.

Lemma session_paint_succeeds_witness :
  ∃ p s lines,
    page (after_sample true) 3 = Some p ∧ slider p = Some s
    ∧ paintEvent s 20 100 = Ok lines
    ∧ length lines = 23%nat.
Proof.
  apply (session_paint_succeeds true sample_session (after_sample true) []
           3 "Performance" 20 100).
  - apply (sample_session_runs true).
  - reflexivity.
Defined.

(** ** The weighted score as an average *)



